(** * discord-onboarding-bot: a shallow embedding of the onboarding logic

    The development follows the layout of the repository:
    - [utils/validators.js]        : [isValidEmail], [isValidPhone],
                                     [isValidName], [sanitizeInput];
    - [utils/emailVerification.js] : [verifyPaidLearner];
    - [utils/onboarding.js]        : [handleResponse], [finalizeOnboarding];
    - [index.js]                   : [cacheInvites], [detectUsedInvite] and
                                     the [messageCreate] handler.

    JavaScript strings are sequences of UTF-16 code units; [length],
    [substring] and the regular expressions of the source (none carries the
    [u] flag) all work on code units, so a string is a [list N]. Identifiers
    handed out by the platform (user, guild, channel ids, invite codes) are
    opaque and are kept as [string]. *)

From Stdlib Require Import NArith ZArith Ascii String List Bool Lia.
From stdpp Require Import base option list strings gmap fin_maps.

Local Open Scope N_scope.

(* ===================================================================== *)
(** * Part I: definitions                                                 *)
(* ===================================================================== *)

(** ** JavaScript strings *)

Abbreviation jsstring := (list N).

(** The code unit of an ASCII character. *)
Definition code (a : ascii) : N := N_of_ascii a.

(** A string literal of the source, as code units. *)
Definition js (s : string) : jsstring := map code (list_ascii_of_string s).

(** A character range [lo-hi] of a character class. *)
Definition in_range (lo hi : ascii) (c : N) : bool :=
  (code lo <=? c) && (c <=? code hi).

(** Membership in an enumerated character class. *)
Definition one_of (cs : string) (c : N) : bool :=
  existsb (N.eqb c) (js cs).

(** [[0-9]], which is [\d] without the [u] flag. *)
Definition is_digit (c : N) : bool := in_range "0" "9" c.

(** [[a-zA-Z]] *)
Definition is_letter (c : N) : bool := in_range "a" "z" c || in_range "A" "Z" c.

(** [[a-zA-Z0-9]] *)
Definition is_alnum (c : N) : bool := is_letter c || is_digit c.

(** [[a-zA-Z0-9-]] *)
Definition is_alnum_hyphen (c : N) : bool := is_alnum c || one_of "-" c.

(** The class of the local part: [[a-zA-Z0-9.!#$%&'*+/=?^_`{|}~-]]. *)
Definition is_local (c : N) : bool :=
  is_alnum c || one_of ".!#$%&'*+/=?^_`{|}~-" c.

(** [[\r\n\t]] *)
Definition is_crlftab (c : N) : bool :=
  (c =? 13) || (c =? 10) || (c =? 9).

(** The code units [String.prototype.trim] strips: ECMAScript WhiteSpace
    (TAB, VT, FF, SP, NBSP, ZWNBSP and the Unicode space separators) and
    LineTerminator (LF, CR, LS, PS). *)
Definition is_js_space (c : N) : bool :=
  (c =? 9) || (c =? 10) || (c =? 11) || (c =? 12) || (c =? 13) || (c =? 32)
  || (c =? 160) || (c =? 5760) || ((8192 <=? c) && (c <=? 8202))
  || (c =? 8232) || (c =? 8233) || (c =? 8239) || (c =? 8287)
  || (c =? 12288) || (c =? 65279).

Fixpoint trimStart (s : jsstring) : jsstring :=
  match s with
  | c :: s' => if is_js_space c then trimStart s' else s
  | [] => []
  end.

Definition trimEnd (s : jsstring) : jsstring := rev (trimStart (rev s)).

(** [s.trim()] *)
Definition trim (s : jsstring) : jsstring := trimEnd (trimStart s).

(** [s.substring(0, n)] for a non-negative [n]. *)
Definition substring0 (n : nat) (s : jsstring) : jsstring := firstn n s.

(** [s.replace(/[cls]/g, ' ')]: every code unit of the class becomes one
    space. *)
Definition replace_class_by_space (cls : N -> bool) (s : jsstring) : jsstring :=
  map (fun c => if cls c then code " " else c) s.

(** [s.replace(/[cls]/g, '')]: every code unit of the class is removed. *)
Definition remove_class (cls : N -> bool) (s : jsstring) : jsstring :=
  List.filter (fun c => negb (cls c)) s.

(** [/[cls]/.test(s)]: some code unit of [s] is in the class. *)
Definition test_class (cls : N -> bool) (s : jsstring) : bool := existsb cls s.

(** ** Regular expressions

    The email pattern is the only one of the source that is more than one
    character class. It uses classes, concatenation, [+], [*], [?] and a
    bounded repetition, and is anchored on both sides, so [test] decides
    membership of the whole string in the language of the pattern. The
    language is decided with derivatives. *)

Inductive regex : Type :=
| Void                                (* matches nothing *)
| Eps                                 (* the empty string *)
| Cls (p : N -> bool)                 (* one code unit of a class *)
| Cat (r1 r2 : regex)
| Alt (r1 r2 : regex)
| Star (r : regex).

(** [r+] *)
Definition Plus (r : regex) : regex := Cat r (Star r).

(** [(?:r)?] *)
Definition Opt (r : regex) : regex := Alt Eps r.

(** [r{0,n}] *)
Fixpoint Upto (n : nat) (r : regex) : regex :=
  match n with
  | O => Eps
  | S n' => Opt (Cat r (Upto n' r))
  end.

(** A literal character. *)
Definition Chr (a : ascii) : regex := Cls (N.eqb (code a)).

Fixpoint nullable (r : regex) : bool :=
  match r with
  | Void => false
  | Eps => true
  | Cls _ => false
  | Cat r1 r2 => nullable r1 && nullable r2
  | Alt r1 r2 => nullable r1 || nullable r2
  | Star _ => true
  end.

(** Constructors that drop [Void] and [Eps] where they change nothing, to
    keep derivatives small. *)
Definition cat' (r1 r2 : regex) : regex :=
  match r1, r2 with
  | Void, _ => Void
  | _, Void => Void
  | Eps, _ => r2
  | _, _ => Cat r1 r2
  end.

Definition alt' (r1 r2 : regex) : regex :=
  match r1, r2 with
  | Void, _ => r2
  | _, Void => r1
  | _, _ => Alt r1 r2
  end.

Fixpoint deriv (c : N) (r : regex) : regex :=
  match r with
  | Void => Void
  | Eps => Void
  | Cls p => if p c then Eps else Void
  | Cat r1 r2 =>
      alt' (cat' (deriv c r1) r2) (if nullable r1 then deriv c r2 else Void)
  | Alt r1 r2 => alt' (deriv c r1) (deriv c r2)
  | Star r1 => cat' (deriv c r1) (Star r1)
  end.

(** [/^r$/.test(s)] *)
Definition regex_test (r : regex) (s : jsstring) : bool :=
  nullable (fold_left (fun r c => deriv c r) s r).

(** The language of a pattern, for the proofs. *)
Inductive matches : regex -> jsstring -> Prop :=
| MEps : matches Eps []
| MCls p c : p c = true -> matches (Cls p) [c]
| MCat r1 r2 s1 s2 : matches r1 s1 -> matches r2 s2 -> matches (Cat r1 r2) (s1 ++ s2)
| MAltL r1 r2 s : matches r1 s -> matches (Alt r1 r2) s
| MAltR r1 r2 s : matches r2 s -> matches (Alt r1 r2) s
| MStarNil r : matches (Star r) []
| MStarApp r s1 s2 : matches r s1 -> matches (Star r) s2 -> matches (Star r) (s1 ++ s2).

(** ** utils/validators.js *)

(** One domain label:
    [[a-zA-Z0-9](?:[a-zA-Z0-9-]{0,61}[a-zA-Z0-9])?] *)
Definition labelRegex : regex :=
  Cat (Cls is_alnum) (Opt (Cat (Upto 61 (Cls is_alnum_hyphen)) (Cls is_alnum))).

(** [/^[a-zA-Z0-9.!#$%&'*+/=?^_`{|}~-]+@LABEL(?:\.LABEL)*$/] *)
Definition emailRegex : regex :=
  Cat (Plus (Cls is_local))
      (Cat (Chr "@")
           (Cat labelRegex (Star (Cat (Chr ".") labelRegex)))).

Definition isValidEmail (email : jsstring) : bool :=
  regex_test emailRegex (trim email).

Definition isValidPhone (phone : jsstring) : bool :=
  let digitsOnly := remove_class (fun c => negb (is_digit c)) phone in
  (10 <=? length digitsOnly)%nat && (length digitsOnly <=? 15)%nat.

Definition isValidName (name : jsstring) : bool :=
  let trimmed := trim name in
  (2 <=? length trimmed)%nat && test_class is_letter trimmed.

Definition sanitizeInput (input : jsstring) : jsstring :=
  substring0 500 (replace_class_by_space is_crlftab (trim input)).


(** ** Exceptions and the handler monad

    A handler of the bot runs against the in-memory registries of
    [index.js] and issues calls to the chat platform and to the spreadsheet.
    [World] holds the two registries. A computation either returns or
    throws; in both cases it yields the world it reached ([try]/[catch]
    rolls nothing back) and the calls it issued, oldest first. *)

Inductive exn : Type :=
| TypeError                 (* property read or call on undefined / null *)
| SyntaxError               (* JSON.parse on malformed text *)
| SystemError               (* a failed file-system call *)
| ErrorMsg (msg : string)   (* [throw new Error(msg)] *)
| Rejected.                 (* an awaited promise rejected *)

Inductive result (A : Type) : Type :=
| Ok (a : A)
| Throw (e : exn).
Arguments Ok {A} a.
Arguments Throw {A} e.

(** The static question table of [utils/onboarding.js]. *)
Inductive QuestionKey : Type := NAME | EMAIL | PHONE.

(** The texts the bot sends. The fixed texts are named; the confirmation
    interpolates the role name and, when the session has a channel, carries
    a link button to [guildId/channelId]. *)
Inductive Content : Type :=
| QuestionText (k : QuestionKey)          (* QUESTIONS[k].question *)
| ValidationErrorText (k : QuestionKey)   (* QUESTIONS[k].errorMessage *)
| ProcessingNotice                        (* "Processing your information..." *)
| RejectionMessage                        (* "... doesn't match our Scaler records ..." *)
| ConfirmationMessage (roleName : string) (link : option (string * string))
| FinalizeFailureMessage                  (* "An error occurred while saving your information. ..." *)
| HandlerFailureMessage.                  (* "An error occurred. Please try again ..." *)

(** The argument of [appendToSheet]; a field is [None] when the session
    never stored it ([undefined]). *)
Record SheetData : Type := {
  sd_name : option jsstring;
  sd_email : option jsstring;
  sd_phone : option jsstring;
  sd_discordUsername : string;
  sd_channel : string
}.

Record Role : Type := { role_id : string; role_name : string }.
Record Channel : Type := { channel_id : string; channel_name : string }.
Record Member : Type := { member_id : string; member_tag : string }.
Record Guild : Type := {
  guild_id : string;
  guild_roles : list Role;                 (* guild.roles.cache, in order *)
  guild_channels : gmap string Channel     (* guild.channels.cache *)
}.

Record Invite : Type := {
  inv_code : string;
  inv_uses : Z;
  inv_channel : option Channel;
  inv_inviter : option string
}.

(** The awaited calls to the outside. *)
Inductive Call : Type :=
| DmSend (recipient : string) (c : Content)        (* message.channel.send *)
| AppendToSheet (row : SheetData)                  (* appendToSheet *)
| MembersFetch (guild user : string)               (* guild.members.fetch *)
| RolesAdd (member : string) (role : Role)         (* member.roles.add *)
| PermissionOverwritesCreate (channel member : string)
| ChannelSend (channel member : string)            (* the public welcome *)
| InvitesFetch (guild : string).                   (* guild.invites.fetch *)

(** The calls that write outside the process memory other than a direct
    message: the spreadsheet row, the role and the channel permission. *)
Definition is_external_write (c : Call) : bool :=
  match c with
  | AppendToSheet _ | RolesAdd _ _ | PermissionOverwritesCreate _ _ => true
  | _ => false
  end.

Record Session : Type := {
  userId : string;
  username : string;
  guildId : string;
  channelName : string;
  channelId : option string;
  currentStep : nat;
  data : gmap string jsstring;
  started : bool;
  startedAt : Z
}.

Record World : Type := {
  invites : gmap string (gmap string Z);       (* guild id -> code -> uses *)
  onboardingSessions : gmap string Session     (* user id -> session *)
}.

Definition M (A : Type) : Type := World -> result A * World * list Call.

Definition ret {A} (a : A) : M A := fun w => (Ok a, w, []).
Definition throw {A} (e : exn) : M A := fun w => (Throw e, w, []).
Definition bind {A B} (m : M A) (k : A -> M B) : M B :=
  fun w => match m w with
           | (Ok a, w1, cs1) => let '(r, w2, cs2) := k a w1 in (r, w2, cs1 ++ cs2)
           | (Throw e, w1, cs1) => (Throw e, w1, cs1)
           end.
Definition try_catch {A} (m : M A) (h : exn -> M A) : M A :=
  fun w => match m w with
           | (Ok a, w1, cs1) => (Ok a, w1, cs1)
           | (Throw e, w1, cs1) => let '(r, w2, cs2) := h e w1 in (r, w2, cs1 ++ cs2)
           end.

Notation "x <- m ;; k" := (bind m (fun x => k))
  (at level 100, m at next level, right associativity).
Notation "m ;;; k" := (bind m (fun _ => k))
  (at level 100, right associativity).

Definition get_world : M World := fun w => (Ok w, w, []).

(** A synchronous call of a function that may throw. *)
Definition eval {A} (r : result A) : M A := fun w => (r, w, []).

Definition sessions_set (k : string) (s : Session) : M unit :=
  fun w => (Ok tt, {| invites := invites w;
                      onboardingSessions := <[k := s]> (onboardingSessions w) |}, []).

Definition sessions_delete (k : string) : M unit :=
  fun w => (Ok tt, {| invites := invites w;
                      onboardingSessions := delete k (onboardingSessions w) |}, []).

Definition invites_set (g : string) (c : gmap string Z) : M unit :=
  fun w => (Ok tt, {| invites := <[g := c]> (invites w);
                      onboardingSessions := onboardingSessions w |}, []).

(** ** JSON values, for the allow-list file *)

Set Warnings "-register-all".

Inductive json : Type :=
| JNull
| JBool (b : bool)
| JNum (z : Z)     (* the code only tests a number for being zero *)
| JStr (s : jsstring)
| JArr (l : list json)
| JObj (fields : list (string * json)).   (* one binding per property *)

(** What [fs] and [JSON.parse] give for [paidLearners.json]. *)
Inductive RosterFile : Type :=
| FileMissing       (* fs.existsSync is false *)
| FileUnreadable    (* fs.readFileSync throws *)
| FileMalformed     (* JSON.parse throws *)
| FileJson (j : json).

(** ** The platform, as one handler run sees it

    [resolves c] tells whether the awaited call [c] resolves ([true]) or
    rejects ([false]) in this run; no handler issues the same call twice in
    one run. The other fields are what the reads of the run return. *)
Record Platform : Type := {
  resolves : Call -> bool;
  toLowerCase : jsstring -> jsstring;               (* String.prototype.toLowerCase *)
  paidLearners_json : RosterFile;
  LEARNER_ROLE_NAME : option string;                (* process.env *)
  client_guilds : gmap string Guild;                (* client.guilds.cache *)
  fetched_member : string -> string -> option Member;  (* value of members.fetch *)
  fetched_invites : string -> list Invite           (* value of invites.fetch, in order *)
}.

(** [await call]: the call is issued, then resolves or rejects. *)
Definition await (P : Platform) (c : Call) : M unit :=
  fun w => (if resolves P c then Ok tt else Throw Rejected, w, [c]).

(** ** utils/emailVerification.js *)

Record LearnerData : Type := {
  ld_name : option json;
  ld_email : option json;
  ld_program : option json;
  ld_batch : option json
}.

Record VerificationResult : Type := {
  isVerified : bool;
  learnerData : option LearnerData
}.

Definition notVerified : VerificationResult :=
  {| isVerified := false; learnerData := None |}.

Fixpoint assoc (k : string) (fs : list (string * json)) : option json :=
  match fs with
  | [] => None
  | (k', v) :: fs' => if String.eqb k k' then Some v else assoc k fs'
  end.

(** [v.k] for one of the keys the code reads ([email], [name], [program],
    [batch]): a [TypeError] on [null], the property of an object, and
    [undefined] on every other value. *)
Definition get_prop (k : string) (v : json) : result (option json) :=
  match v with
  | JNull => Throw TypeError
  | JObj fs => Ok (assoc k fs)
  | _ => Ok None
  end.

(** JavaScript truthiness of a value that may be [undefined]. *)
Definition truthy (v : option json) : bool :=
  match v with
  | None | Some JNull => false
  | Some (JBool b) => b
  | Some (JNum z) => negb (z =? 0)%Z
  | Some (JStr s) => negb (Nat.eqb (length s) 0)
  | Some (JArr _) | Some (JObj _) => true
  end.

Definition jsstring_eqb (a b : jsstring) : bool :=
  bool_decide (a = b).

(** The callback of [paidLearners.find]:
    [learner.email && learner.email.toLowerCase().trim() === normalizedEmail].
    Only a string has [toLowerCase]. *)
Definition learner_matches (P : Platform) (normalizedEmail : jsstring)
    (learner : json) : result bool :=
  match get_prop "email" learner with
  | Throw e => Throw e
  | Ok e =>
      if truthy e then
        match e with
        | Some (JStr s) => Ok (jsstring_eqb (trim (toLowerCase P s)) normalizedEmail)
        | _ => Throw TypeError
        end
      else Ok false
  end.

(** [Array.prototype.find]: the first element the callback accepts; an
    exception of the callback ends the search. *)
Fixpoint array_find (f : json -> result bool) (l : list json) : result (option json) :=
  match l with
  | [] => Ok None
  | x :: l' =>
      match f x with
      | Throw e => Throw e
      | Ok true => Ok (Some x)
      | Ok false => array_find f l'
      end
  end.

(** The body of the [try] block; [email] is [session.data.email], which is
    [undefined] when the session stored no email. *)
Definition verifyPaidLearner_try (P : Platform) (email : option jsstring)
    : result VerificationResult :=
  match paidLearners_json P with
  | FileMissing => Ok notVerified
  | FileUnreadable => Throw SystemError
  | FileMalformed => Throw SyntaxError
  | FileJson paidLearners =>
      match email with
      | None => Throw TypeError
      | Some email =>
          let normalizedEmail := trim (toLowerCase P email) in
          match paidLearners with
          | JArr entries =>
              match array_find (learner_matches P normalizedEmail) entries with
              | Throw e => Throw e
              | Ok (Some learner) =>
                  Ok {| isVerified := true;
                        learnerData := Some
                          {| ld_name := match get_prop "name" learner with Ok v => v | _ => None end;
                             ld_email := match get_prop "email" learner with Ok v => v | _ => None end;
                             ld_program := match get_prop "program" learner with Ok v => v | _ => None end;
                             ld_batch := match get_prop "batch" learner with Ok v => v | _ => None end |} |}
              | Ok None => Ok notVerified
              end
          | _ => Throw TypeError      (* [find] is not a function *)
          end
      end
  end.

(** The function: whatever the [try] block throws is caught, logged and
    answered with "not verified". *)
Definition verifyPaidLearner (P : Platform) (email : option jsstring)
    : result VerificationResult :=
  match verifyPaidLearner_try P email with
  | Ok r => Ok r
  | Throw _ => Ok notVerified
  end.

(** ** utils/onboarding.js *)

Record Question : Type := {
  key : string;
  question : Content;
  validator : jsstring -> bool;
  errorMessage : Content
}.

Definition QUESTIONS (k : QuestionKey) : Question :=
  match k with
  | NAME => {| key := "name"; question := QuestionText NAME;
               validator := isValidName; errorMessage := ValidationErrorText NAME |}
  | EMAIL => {| key := "email"; question := QuestionText EMAIL;
                validator := isValidEmail; errorMessage := ValidationErrorText EMAIL |}
  | PHONE => {| key := "phone"; question := QuestionText PHONE;
                validator := isValidPhone; errorMessage := ValidationErrorText PHONE |}
  end.

Definition QUESTION_ORDER : list QuestionKey := [NAME; EMAIL; PHONE].

(** An incoming message; [in_guild] is [message.guild] being non-null. *)
Record Message : Type := {
  author_id : string;
  author_bot : bool;
  in_guild : bool;
  content : jsstring
}.

(** [if (session.channelId)]: neither [null] nor the empty string. *)
Definition channelId_truthy (c : option string) : option string :=
  match c with
  | Some id => if String.eqb id "" then None else Some id
  | None => None
  end.

(** [process.env.LEARNER_ROLE_NAME || 'Learner'] *)
Definition roleName_of (P : Platform) : string :=
  match LEARNER_ROLE_NAME P with
  | Some n => if String.eqb n "" then "Learner" else n
  | None => "Learner"
  end.

(** [appendToSheet] of [utils/sheets.js] logs and rethrows what the
    spreadsheet call throws. *)
Definition appendToSheet (P : Platform) (row : SheetData) : M unit :=
  try_catch (await P (AppendToSheet row)) (fun e => throw e).

(** The channel grant of [finalizeOnboarding]: what it throws is logged and
    dropped, and so is a failure of the public welcome. *)
Definition grantChannelAccess (P : Platform) (guild : Guild) (member : Member)
    (session : Session) : M unit :=
  match channelId_truthy (channelId session) with
  | Some cid =>
      try_catch
        (match guild_channels guild !! cid with
         | Some channel =>
             await P (PermissionOverwritesCreate (channel_id channel) (member_id member)) ;;;
             try_catch (await P (ChannelSend (channel_id channel) (member_id member)))
                       (fun _ => ret tt)
         | None => ret tt
         end)
        (fun _ => ret tt)
  | None => ret tt
  end.

(** The record built for the spreadsheet. *)
Definition sheetData_of (session : Session) : SheetData :=
  {| sd_name := data session !! "name";
     sd_email := data session !! "email";
     sd_phone := data session !! "phone";
     sd_discordUsername := username session;
     sd_channel := channelName session |}.

(** The link of the confirmation button, when the session has a channel. *)
Definition channel_link (session : Session) : option (string * string) :=
  match channelId_truthy (channelId session) with
  | Some cid => Some (guildId session, cid)
  | None => None
  end.

(** The [try] block of [finalizeOnboarding]. *)
Definition finalizeOnboarding_try (P : Platform) (message : Message)
    (session : Session) : M unit :=
     await P (DmSend (author_id message) ProcessingNotice) ;;;
     verificationResult <- eval (verifyPaidLearner P (data session !! "email")) ;;
     if negb (isVerified verificationResult) then
       await P (DmSend (author_id message) RejectionMessage) ;;;
       sessions_delete (userId session)
     else
       let sheetData := sheetData_of session in
       appendToSheet P sheetData ;;;
       match client_guilds P !! guildId session with
       | None => throw (ErrorMsg "Guild not found")
       | Some guild =>
           await P (MembersFetch (guildId session) (userId session)) ;;;
           match fetched_member P (guildId session) (userId session) with
           | None => throw (ErrorMsg "Member not found")
           | Some member =>
               let roleName := roleName_of P in
               match find (fun r => String.eqb (role_name r) roleName) (guild_roles guild) with
               | Some role => await P (RolesAdd (member_id member) role)
               | None => ret tt
               end ;;;
               grantChannelAccess P guild member session ;;;
               await P (DmSend (author_id message)
                          (ConfirmationMessage roleName (channel_link session))) ;;;
               sessions_delete (userId session)
           end
       end.

(** The [catch] block sends the generic failure message, ignores a failure
    of that send, and keeps the session. *)
Definition finalizeOnboarding (P : Platform) (message : Message)
    (session : Session) : M unit :=
  try_catch
    (finalizeOnboarding_try P message session)
    (fun _ =>
       try_catch (await P (DmSend (author_id message) FinalizeFailureMessage))
                 (fun _ => ret tt)).

(** [session] is the object the registry holds for the author of the
    message: the two assignments to its fields are seen through the
    registry, so the changed session is written back to that slot. *)
Definition handleResponse (P : Platform) (message : Message)
    (session : Session) : M unit :=
  match nth_error QUESTION_ORDER (currentStep session) with
  | None => throw TypeError       (* [currentQuestion] is undefined *)
  | Some currentQuestionKey =>
      let currentQuestion := QUESTIONS currentQuestionKey in
      let userInput := sanitizeInput (content message) in
      if negb (validator currentQuestion userInput) then
        await P (DmSend (author_id message) (errorMessage currentQuestion))
      else
        let session' :=
          {| userId := userId session; username := username session;
             guildId := guildId session; channelName := channelName session;
             channelId := channelId session;
             currentStep := S (currentStep session);
             data := <[key currentQuestion := userInput]> (data session);
             started := started session; startedAt := startedAt session |} in
        sessions_set (author_id message) session' ;;;
        if (currentStep session' <? length QUESTION_ORDER)%nat then
          match nth_error QUESTION_ORDER (currentStep session') with
          | Some nextQuestionKey =>
              await P (DmSend (author_id message) (question (QUESTIONS nextQuestionKey)))
          | None => throw TypeError
          end
        else finalizeOnboarding P message session'
  end.

(** ** index.js *)

(** [new Collection(fetched.map(invite => [invite.code, invite.uses]))]:
    pairs are set in order, a later one replaces an earlier one. *)
Definition collection_of_invites (l : list Invite) : gmap string Z :=
  fold_left (fun m inv => <[inv_code inv := inv_uses inv]> m) l ∅.

Definition cacheInvites (P : Platform) (guild : string) : M unit :=
  try_catch
    (await P (InvitesFetch guild) ;;;
     invites_set guild (collection_of_invites (fetched_invites P guild)))
    (fun _ => ret tt).

(** The predicate handed to [newInvites.find]. *)
Definition uses_increased (oldInvites : gmap string Z) (inv : Invite) : bool :=
  match oldInvites !! inv_code inv with
  | Some oldUses => (oldUses <? inv_uses inv)%Z
  | None => false
  end.

Definition detectUsedInvite (P : Platform) (guild : string) : M (option Invite) :=
  try_catch
    (await P (InvitesFetch guild) ;;;
     let newInvites := fetched_invites P guild in
     w <- get_world ;;
     match invites w !! guild with
     | None => ret None
     | Some oldInvites =>
         let usedInvite := find (uses_increased oldInvites) newInvites in
         invites_set guild (collection_of_invites newInvites) ;;;
         ret usedInvite
     end)
    (fun _ => ret None).

(** The [messageCreate] handler. *)
Definition messageCreate (P : Platform) (message : Message) : M unit :=
  if author_bot message || in_guild message then ret tt
  else
    w <- get_world ;;
    match onboardingSessions w !! author_id message with
    | None => ret tt
    | Some session =>
        if negb (started session) then ret tt
        else
          try_catch (handleResponse P message session)
                    (fun _ =>
                       try_catch (await P (DmSend (author_id message) HandlerFailureMessage))
                                 (fun _ => ret tt))
    end.

(** ** The properties of the specification, in its own words *)

(** The number of ASCII digits of a string. *)
Fixpoint digit_count (s : jsstring) : nat :=
  match s with
  | [] => 0
  | c :: s' =>
      if (48 <=? c) && (c <=? 57) then S (digit_count s') else digit_count s'
  end.

(** A domain label: 1 to 63 code units, alphanumeric or hyphen, the first
    and the last alphanumeric. *)
Definition label_ok (l : jsstring) : Prop :=
  (1 <= length l <= 63)%nat /\
  Forall (fun c => is_alnum_hyphen c = true) l /\
  (exists c, head l = Some c /\ is_alnum c = true) /\
  (exists c, last l = Some c /\ is_alnum c = true).

(** [labels.join('.')] *)
Definition join_dots (labels : list jsstring) : jsstring :=
  match labels with
  | [] => []
  | l :: ls => l ++ concat (map (fun l' => code "." :: l') ls)
  end.

(** A non-empty local part of the allowed symbols, [@], and one or more
    labels separated by dots. *)
Definition email_shape (t : jsstring) : Prop :=
  exists (loc : jsstring) (labels : list jsstring),
    t = loc ++ code "@" :: join_dots labels /\
    loc <> [] /\ Forall (fun c => is_local c = true) loc /\
    labels <> [] /\ Forall label_ok labels.

(** The world after [sessions.delete(session.userId)]. *)
Definition session_removed (session : Session) (w : World) : World :=
  {| invites := invites w;
     onboardingSessions := delete (userId session) (onboardingSessions w) |}.

(** [inv] is the first invite of [fetched] whose use-count exceeds the
    count cached under the same code. *)
Definition first_increase (old : gmap string Z) (fetched : list Invite)
    (inv : Invite) : Prop :=
  exists l1 l2,
    fetched = l1 ++ inv :: l2 /\
    (exists u, old !! inv_code inv = Some u /\ (u < inv_uses inv)%Z) /\
    Forall (fun i => forall u, old !! inv_code i = Some u -> (inv_uses i <= u)%Z) l1.

(** The email of a roster entry, when the entry is an object with a string
    under [email]. *)
Definition entry_email (j : json) : option jsstring :=
  match j with
  | JObj fs => match assoc "email" fs with
               | Some (JStr s) => Some s
               | _ => None
               end
  | _ => None
  end.

(** No entry of the roster carries the email, compared lower-cased and
    trimmed. *)
Definition not_listed (P : Platform) (entries : list json) (email : jsstring) : Prop :=
  Forall (fun j => forall s, entry_email j = Some s ->
                             trim (toLowerCase P s) <> trim (toLowerCase P email))
         entries.

(** The allow-list cannot be read as JSON. *)
Definition roster_unavailable (f : RosterFile) : bool :=
  match f with
  | FileJson _ => false
  | _ => true
  end.

(** ** Scenarios

    Concrete platforms, sessions and messages on which the properties below
    are exercised. *)

(** Lower-casing restricted to ASCII letters: it agrees with
    [String.prototype.toLowerCase] on strings of ASCII code units, which is
    what the scenarios hold; the properties below are stated for any
    [toLowerCase]. *)
Definition ascii_toLowerCase (s : jsstring) : jsstring :=
  map (fun c => if in_range "A" "Z" c then c + 32 else c) s.

Definition jane_roster : json :=
  JArr [JObj [("name"%string, JStr (js "Jane Doe"));
              ("email"%string, JStr (js "jane@scaler.com"));
              ("program"%string, JStr (js "DSML"));
              ("batch"%string, JStr (js "2024"))]].

Definition course_channel : Channel :=
  {| channel_id := "c1"; channel_name := "dsml" |}.

Definition demo_guild : Guild :=
  {| guild_id := "g1";
     guild_roles := [{| role_id := "r1"; role_name := "Learner" |}];
     guild_channels := {[ "c1"%string := course_channel ]} |}.

Definition invite_A : Invite :=
  {| inv_code := "A"; inv_uses := 5; inv_channel := None; inv_inviter := None |}.
Definition invite_B : Invite :=
  {| inv_code := "B"; inv_uses := 3; inv_channel := Some course_channel;
     inv_inviter := Some "admin#0001"%string |}.

Definition demo_platform (roster : RosterFile) (ok : Call -> bool) : Platform :=
  {| resolves := ok;
     toLowerCase := ascii_toLowerCase;
     paidLearners_json := roster;
     LEARNER_ROLE_NAME := None;
     client_guilds := {[ "g1"%string := demo_guild ]};
     fetched_member := fun _ u => Some {| member_id := u; member_tag := "jane#0001" |};
     fetched_invites := fun _ => [invite_A; invite_B] |}.

Definition all_resolve (c : Call) : bool := true.

(** Every call resolves but the spreadsheet append. *)
Definition append_rejects (c : Call) : bool :=
  match c with
  | AppendToSheet _ => false
  | _ => true
  end.

Definition jane_session (email : string) (started : bool) (step : nat) : Session :=
  {| userId := "u1"; username := "jane#0001"; guildId := "g1";
     channelName := "dsml"; channelId := Some "c1"%string;
     currentStep := step;
     data := <["name"%string := js "Jane Doe"]>
               (<["email"%string := js email]>
                  (<["phone"%string := js "9998887777"]> ∅));
     started := started; startedAt := 0 |}.

Definition jane_message : Message :=
  {| author_id := "u1"; author_bot := false; in_guild := false;
     content := js "9998887777" |}.

Definition demo_world (s : Session) : World :=
  {| invites := {[ "g1"%string := <["A"%string := 5%Z]> ({[ "B"%string := 2%Z ]}) ]};
     onboardingSessions := {[ "u1"%string := s ]} |}.

Definition world_without_cache : World :=
  {| invites := ∅; onboardingSessions := ∅ |}.

(** The roster holds jane@scaler.com only. *)
Definition paid_session : Session := jane_session "jane@scaler.com" true 3.
Definition unknown_session : Session := jane_session "joe@example.org" true 3.
Definition unstarted_session : Session := jane_session "" false 0.

Definition paid_platform : Platform := demo_platform (FileJson jane_roster) all_resolve.
Definition failing_sheet_platform : Platform :=
  demo_platform (FileJson jane_roster) append_rejects.
Definition no_roster_platform : Platform := demo_platform FileMissing all_resolve.

(** ** index.js: invite events and start-up

    The remaining handlers of the invite cache. An [inviteCreate] or
    [inviteDelete] event carries the guild and the invite; the collection
    held for the guild is changed in place, which the registry sees. *)

Definition inviteCreate (guild : string) (invite : Invite) : M unit :=
  w <- get_world ;;
  let guildInvites := default ∅ (invites w !! guild) in
  invites_set guild (<[inv_code invite := inv_uses invite]> guildInvites).

Definition inviteDelete (guild : string) (invite : Invite) : M unit :=
  w <- get_world ;;
  match invites w !! guild with
  | Some guildInvites => invites_set guild (delete (inv_code invite) guildInvites)
  | None => ret tt
  end.

(** The loop of the [ready] handler over [client.guilds.cache.values()],
    given in iteration order; [guildCreate] is one [cacheInvites]. *)
Fixpoint ready (P : Platform) (guilds : list string) : M unit :=
  match guilds with
  | [] => ret tt
  | guild :: rest => cacheInvites P guild ;;; ready P rest
  end.

(** The check of the required environment variables at start-up:
    [process.env] as a finite map. [env_truthy] is the value of a variable
    when it is set and not empty, the values [if (process.env[k])] accepts.
    [missing_env_var] is the variable at which the process exits, if any. *)
Definition env_truthy (env : gmap string string) (k : string) : option string :=
  match env !! k with
  | Some v => if String.eqb v "" then None else Some v
  | None => None
  end.

Definition requiredEnvVars : list string :=
  ["DISCORD_TOKEN"; "SPREADSHEET_ID"; "GOOGLE_APPLICATION_CREDENTIALS"]%string.

Definition missing_env_var (env : gmap string string) : option string :=
  find (fun envVar => match env_truthy env envVar with
                      | Some _ => false
                      | None => true
                      end) requiredEnvVars.

(** ** utils/sheets.js: the choice of the credentials

    On its first call [initializeSheetsClient] builds the client from the
    JSON text of [GOOGLE_CREDENTIALS] when that variable is set, else from
    the key file named by [GOOGLE_APPLICATION_CREDENTIALS], and throws when
    neither is set. [parses] tells whether [JSON.parse] accepts a text. *)
Inductive CredentialSource : Type :=
| CredentialsJson (text : string)
| KeyFile (path : string).

Definition chooseCredentials (parses : string -> bool) (env : gmap string string)
    : result CredentialSource :=
  match env_truthy env "GOOGLE_CREDENTIALS" with
  | Some text => if parses text then Ok (CredentialsJson text) else Throw SyntaxError
  | None =>
      match env_truthy env "GOOGLE_APPLICATION_CREDENTIALS" with
      | Some path => Ok (KeyFile path)
      | None => Throw (ErrorMsg "No Google credentials found")
      end
  end.

(** ** The member-join and button handlers

    These handlers issue calls of their own besides those of the handlers
    above: the creation of the DM channel, the welcome message with its
    Start button, and the three answers to a button interaction. *)
Inductive GatewayCall : Type :=
| Issued (c : Call)                               (* a call of the handlers above *)
| CreateDM (user : string)                        (* member.user.createDM *)
| WelcomeSend (user : string)                     (* dm.send of the welcome and the button *)
| InteractionReply (user : string)                (* "Session not found. ..." *)
| InteractionUpdate (user : string)               (* the button is removed *)
| InteractionFollowUp (user : string) (c : Content).

Record Gateway : Type := {
  platform : Platform;
  gateway_resolves : GatewayCall -> bool;   (* for the calls other than [Issued] *)
  Date_now : Z
}.

Definition G (A : Type) : Type := World -> result A * World * list GatewayCall.

Definition retG {A} (a : A) : G A := fun w => (Ok a, w, []).
Definition throwG {A} (e : exn) : G A := fun w => (Throw e, w, []).
Definition bindG {A B} (m : G A) (k : A -> G B) : G B :=
  fun w => match m w with
           | (Ok a, w1, cs1) => let '(r, w2, cs2) := k a w1 in (r, w2, cs1 ++ cs2)
           | (Throw e, w1, cs1) => (Throw e, w1, cs1)
           end.
Definition try_catchG {A} (m : G A) (h : exn -> G A) : G A :=
  fun w => match m w with
           | (Ok a, w1, cs1) => (Ok a, w1, cs1)
           | (Throw e, w1, cs1) => let '(r, w2, cs2) := h e w1 in (r, w2, cs1 ++ cs2)
           end.

(** A handler of the first part, run inside one of these. *)
Definition lift {A} (m : M A) : G A :=
  fun w => let '(r, w1, cs) := m w in (r, w1, map Issued cs).

Definition awaitG (Gw : Gateway) (c : GatewayCall) : G unit :=
  fun w => (if gateway_resolves Gw c then Ok tt else Throw Rejected, w, [c]).

(** The member of a [guildMemberAdd] event. *)
Record GuildMember : Type := {
  gm_id : string;        (* member.id *)
  gm_tag : string;       (* member.user.tag *)
  gm_guild : string      (* member.guild.id *)
}.

Definition new_session (Gw : Gateway) (member : GuildMember)
    (channelName : string) (channelId : option string) : Session :=
  {| userId := gm_id member; username := gm_tag member; guildId := gm_guild member;
     channelName := channelName; channelId := channelId;
     currentStep := 0; data := ∅; started := false; startedAt := Date_now Gw |}.

(** [handleOnboarding] of [utils/onboarding.js]. A failed creation of the DM
    channel gives [null] and ends the function; a failed welcome removes
    the session just stored. *)
Definition handleOnboarding (Gw : Gateway) (member : GuildMember)
    (channelName : string) (channelId : option string) : G unit :=
  try_catchG
    (bindG (try_catchG (bindG (awaitG Gw (CreateDM (gm_id member))) (fun _ => retG true))
                       (fun _ => retG false))
       (fun dm =>
          if negb dm then retG tt
          else
            bindG (lift (sessions_set (gm_id member)
                           (new_session Gw member channelName channelId)))
              (fun _ =>
                 try_catchG (awaitG Gw (WelcomeSend (gm_id member)))
                            (fun _ => lift (sessions_delete (gm_id member))))))
    (fun error => throwG error).

(** The channel name and id read from the detected invite. *)
Definition channel_of_invite (usedInvite : option Invite) : string * option string :=
  match usedInvite with
  | Some inv =>
      match inv_channel inv with
      | Some ch => (channel_name ch, Some (channel_id ch))
      | None => ("Unknown"%string, None)
      end
  | None => ("Unknown"%string, None)
  end.

(** The [guildMemberAdd] handler. *)
Definition guildMemberAdd (Gw : Gateway) (member : GuildMember) : G unit :=
  bindG (lift (detectUsedInvite (platform Gw) (gm_guild member)))
    (fun usedInvite =>
       let '(channelName, channelId) := channel_of_invite usedInvite in
       try_catchG (handleOnboarding Gw member channelName channelId)
                  (fun _ => retG tt)).

(** A component interaction. *)
Record Interaction : Type := {
  isButton : bool;
  customId : string;
  interaction_user : string
}.

(** The [interactionCreate] handler. It has no [try]: a rejected call ends
    it with the rejection. The assignment to [session.started] is seen
    through the registry slot of the user. *)
Definition interactionCreate (Gw : Gateway) (interaction : Interaction) : G unit :=
  if negb (isButton interaction) then retG tt
  else if String.eqb (customId interaction) "start_onboarding" then
    fun w =>
      match onboardingSessions w !! interaction_user interaction with
      | None => awaitG Gw (InteractionReply (interaction_user interaction)) w
      | Some session =>
          let session' :=
            {| userId := userId session; username := username session;
               guildId := guildId session; channelName := channelName session;
               channelId := channelId session; currentStep := currentStep session;
               data := data session; started := true;
               startedAt := startedAt session |} in
          bindG (lift (sessions_set (interaction_user interaction) session'))
            (fun _ =>
               bindG (awaitG Gw (InteractionUpdate (interaction_user interaction)))
                 (fun _ =>
                    match nth_error QUESTION_ORDER 0 with
                    | Some firstKey =>
                        awaitG Gw (InteractionFollowUp (interaction_user interaction)
                                     (question (QUESTIONS firstKey)))
                    | None => throwG TypeError
                    end)) w
      end
  else retG tt.

(** The [messageCreate] handler, among these. *)
Definition messageCreateG (Gw : Gateway) (message : Message) : G unit :=
  lift (messageCreate (platform Gw) message).

(** ** Roster entries

    An entry is malformed when the callback of [find] throws on it: it is
    [null], or its [email] is truthy and not a string. An entry matches an
    email when its [email] is a non-empty string equal to it once both are
    lower-cased and trimmed. *)
Definition entry_malformed (j : json) : bool :=
  match j with
  | JNull => true
  | JObj fs =>
      match assoc "email" fs with
      | Some (JStr _) => false
      | v => truthy v
      end
  | _ => false
  end.

Definition entry_matches (P : Platform) (email : jsstring) (j : json) : bool :=
  match entry_email j with
  | Some s => negb (Nat.eqb (length s) 0) &&
              jsstring_eqb (trim (toLowerCase P s)) (trim (toLowerCase P email))
  | None => false
  end.

(** The fields copied from a matched entry. *)
Definition learnerData_of (learner : json) : LearnerData :=
  {| ld_name := match get_prop "name" learner with Ok v => v | _ => None end;
     ld_email := match get_prop "email" learner with Ok v => v | _ => None end;
     ld_program := match get_prop "program" learner with Ok v => v | _ => None end;
     ld_batch := match get_prop "batch" learner with Ok v => v | _ => None end |}.

(** The calls that grant something on the server. *)
Definition is_grant (c : Call) : bool :=
  match c with
  | RolesAdd _ _ | PermissionOverwritesCreate _ _ => true
  | _ => false
  end.

(** The rows a list of calls appends. *)
Fixpoint appended_rows (cs : list Call) : list SheetData :=
  match cs with
  | [] => []
  | AppendToSheet row :: cs' => row :: appended_rows cs'
  | _ :: cs' => appended_rows cs'
  end.

(** ** Sessions in the flow *)

(** The session after [session.data[key] = value; session.currentStep++]. *)
Definition with_answer (session : Session) (k : string) (value : jsstring) : Session :=
  {| userId := userId session; username := username session;
     guildId := guildId session; channelName := channelName session;
     channelId := channelId session;
     currentStep := S (currentStep session);
     data := <[k := value]> (data session);
     started := started session; startedAt := startedAt session |}.

(** The world after the registry slot [k] is set to [s]. *)
Definition session_stored (k : string) (s : Session) (w : World) : World :=
  {| invites := invites w;
     onboardingSessions := <[k := s]> (onboardingSessions w) |}.

(** The question [k] has an answer in the session: a value its validator
    accepts, of at most 500 code units. *)
Definition answered (s : Session) (k : QuestionKey) : Prop :=
  exists v, data s !! key (QUESTIONS k) = Some v /\
            validator (QUESTIONS k) v = true /\
            (length v <= 500)%nat.

(** The index of a session is within the question list and every question
    before it is answered. *)
Definition session_wf (s : Session) : Prop :=
  (currentStep s <= length QUESTION_ORDER)%nat /\
  forall i k, (i < currentStep s)%nat ->
              nth_error QUESTION_ORDER i = Some k -> answered s k.

(** Every session of the registry is kept under its own user id and is
    well formed. *)
Definition registry_wf (w : World) : Prop :=
  forall u s, onboardingSessions w !! u = Some s -> userId s = u /\ session_wf s.

(** A row whose three answers are present and valid. *)
Definition row_complete (row : SheetData) : Prop :=
  (exists n, sd_name row = Some n /\ isValidName n = true) /\
  (exists e, sd_email row = Some e /\ isValidEmail e = true) /\
  (exists p, sd_phone row = Some p /\ isValidPhone p = true).

(** ** Invites between two fetches *)

(** The invite after one more use. *)
Definition used_once (i : Invite) : Invite :=
  {| inv_code := inv_code i; inv_uses := inv_uses i + 1;
     inv_channel := inv_channel i; inv_inviter := inv_inviter i |}.

(** The invites of a guild after one use of the invite with code [c]. *)
Definition use_invite (c : string) (l : list Invite) : list Invite :=
  map (fun i => if String.eqb (inv_code i) c then used_once i else i) l.

(** The world with the cache entry of [guild] set to [entry]. *)
Definition cache_stored (guild : string) (entry : gmap string Z) (w : World) : World :=
  {| invites := <[guild := entry]> (invites w);
     onboardingSessions := onboardingSessions w |}.

(** ** Sessions at the gateway *)

(** The session after [session.started = true]. *)
Definition start_session (session : Session) : Session :=
  {| userId := userId session; username := username session;
     guildId := guildId session; channelName := channelName session;
     channelId := channelId session; currentStep := currentStep session;
     data := data session; started := true; startedAt := startedAt session |}.

(** The calls of the first part among the calls of a gateway handler. *)
Fixpoint issued_calls (cs : list GatewayCall) : list Call :=
  match cs with
  | [] => []
  | Issued c :: cs' => c :: issued_calls cs'
  | _ :: cs' => issued_calls cs'
  end.

(** A click on the Start button by [user]. *)
Definition start_click (user : string) : Interaction :=
  {| isButton := true; customId := "start_onboarding"; interaction_user := user |}.

(** A direct message of [user]. *)
Definition direct_message (user : string) (text : jsstring) : Message :=
  {| author_id := user; author_bot := false; in_guild := false; content := text |}.

(** The events of one onboarding, in order: the member joins, clicks
    Start, and sends three direct messages. *)
Definition onboarding_flow (Gw : Gateway) (member : GuildMember)
    (name email phone : jsstring) : G unit :=
  bindG (guildMemberAdd Gw member) (fun _ =>
  bindG (interactionCreate Gw (start_click (gm_id member))) (fun _ =>
  bindG (messageCreateG Gw (direct_message (gm_id member) name)) (fun _ =>
  bindG (messageCreateG Gw (direct_message (gm_id member) email)) (fun _ =>
  messageCreateG Gw (direct_message (gm_id member) phone))))).

(** The row of a member who answered [name], [email] and [phone]. *)
Definition row_of (member : GuildMember) (channelName : string)
    (name email phone : jsstring) : SheetData :=
  {| sd_name := Some (sanitizeInput name);
     sd_email := Some (sanitizeInput email);
     sd_phone := Some (sanitizeInput phone);
     sd_discordUsername := gm_tag member;
     sd_channel := channelName |}.

(** ** More scenarios *)

Definition upper_case_entries : list json :=
  [JObj [("name"%string, JStr (js "Someone Else"))];
   JObj [("name"%string, JStr (js "Jane Doe"));
         ("email"%string, JStr (js "Jane@Scaler.com "))]].

Definition upper_case_platform : Platform :=
  demo_platform (FileJson (JArr upper_case_entries)) all_resolve.

Definition jane_entry : json :=
  JObj [("name"%string, JStr (js "Jane Doe"));
        ("email"%string, JStr (js "jane@scaler.com"))].

(** A roster whose first entry is [null], before the entry of Jane. *)
Definition null_entry_platform : Platform :=
  demo_platform (FileJson (JArr ([] ++ JNull :: [jane_entry]))) all_resolve.

(** Every call resolves but the role grant. *)
Definition role_rejects (c : Call) : bool :=
  match c with
  | RolesAdd _ _ => false
  | _ => true
  end.

(** Every call resolves but the channel permission. *)
Definition channel_grant_rejects (c : Call) : bool :=
  match c with
  | PermissionOverwritesCreate _ _ => false
  | _ => true
  end.

Definition nothing_resolves (c : Call) : bool := false.

Definition role_failing_platform : Platform :=
  demo_platform (FileJson jane_roster) role_rejects.
Definition grant_failing_platform : Platform :=
  demo_platform (FileJson jane_roster) channel_grant_rejects.
Definition offline_platform : Platform :=
  demo_platform (FileJson jane_roster) nothing_resolves.

(** Every call resolves but the rejection message: the user closed the
    direct messages after the progress notice. *)
Definition rejection_rejects (c : Call) : bool :=
  match c with
  | DmSend _ RejectionMessage => false
  | _ => true
  end.

Definition closed_dm_platform : Platform :=
  demo_platform (FileJson jane_roster) rejection_rejects.
Definition closed_dm_no_roster_platform : Platform :=
  demo_platform FileMissing rejection_rejects.

Definition learner_role : Role := {| role_id := "r1"; role_name := "Learner" |}.
Definition jane_as_member : Member := {| member_id := "u1"; member_tag := "jane#0001" |}.

(** The invites of the guild before the join through invite B. *)
Definition invite_B_before : Invite :=
  {| inv_code := "B"; inv_uses := 2; inv_channel := Some course_channel;
     inv_inviter := Some "admin#0001"%string |}.
Definition invites_before : list Invite := [invite_A; invite_B_before].

Definition invite_C : Invite :=
  {| inv_code := "C"; inv_uses := 0; inv_channel := None; inv_inviter := None |}.

(** A platform whose fetch returns invite C after one use. *)
Definition platform_after_C : Platform :=
  {| resolves := all_resolve;
     toLowerCase := ascii_toLowerCase;
     paidLearners_json := FileJson jane_roster;
     LEARNER_ROLE_NAME := None;
     client_guilds := {[ "g1"%string := demo_guild ]};
     fetched_member := fun _ u => Some {| member_id := u; member_tag := "jane#0001" |};
     fetched_invites := fun _ => [used_once invite_C; invite_A] |}.

Definition demo_gateway : Gateway :=
  {| platform := paid_platform; gateway_resolves := fun _ => true;
     Date_now := 1700000000000 |}.

Definition jane_member : GuildMember :=
  {| gm_id := "u1"; gm_tag := "jane#0001"; gm_guild := "g1" |}.

Definition local_env : gmap string string :=
  <["DISCORD_TOKEN"%string := "token"%string]>
    (<["SPREADSHEET_ID"%string := "sheet"%string]>
       (<["GOOGLE_APPLICATION_CREDENTIALS"%string := "./credentials.json"%string]> ∅)).

(** The variables of a deployment that keeps the credentials in
    [GOOGLE_CREDENTIALS] only. *)
Definition hosted_env : gmap string string :=
  <["DISCORD_TOKEN"%string := "token"%string]>
    (<["SPREADSHEET_ID"%string := "sheet"%string]>
       (<["GOOGLE_CREDENTIALS"%string := "{}"%string]> ∅)).

(** The session of another member, and a registry with both. *)
Definition other_session : Session :=
  {| userId := "u2"; username := "joe#0002"; guildId := "g1";
     channelName := "Unknown"; channelId := None;
     currentStep := 1; data := {[ "name"%string := js "Joe" ]};
     started := true; startedAt := 0 |}.

Definition two_sessions_world : World :=
  {| invites := ∅;
     onboardingSessions :=
       <["u1"%string := jane_session "jane@scaler.com" true 2]>
         ({[ "u2"%string := other_session ]}) |}.

(** The cache {A:5, B:2} and no session. *)
Definition cache_only_world : World :=
  {| invites := {[ "g1"%string := collection_of_invites invites_before ]};
     onboardingSessions := ∅ |}.

(** A gateway on which the member's direct messages are closed. *)
Definition dm_closed_gateway : Gateway :=
  {| platform := paid_platform;
     gateway_resolves := fun c => match c with CreateDM _ => false | _ => true end;
     Date_now := 1700000000000 |}.

(* ===================================================================== *)
(** * Part II: properties                                                 *)
(* ===================================================================== *)

(** ** Proof tools *)

(* One step of a handler: the matches on known outcomes are reduced. *)
Ltac run := cbv beta iota zeta.

(* The goal [~ In c cs] for a list of calls none of which is [c]; [Hg]
   excludes the direct messages from an opaque part of the list. *)
Ltac not_in_calls_with Hg :=
  rewrite ?in_app_iff; cbn [In]; intros Hin;
  repeat (destruct Hin as [Hin | Hin]);
  try discriminate; try (eapply Hg; exact Hin); try exact Hin.
Ltac not_in_calls := not_in_calls_with I.
Ltac thrown := run; split; [not_in_calls | reflexivity].

(* The scrutinee that blocks the reduction of a handler run. *)
Ltac blocker t :=
  lazymatch t with
  | match ?s with _ => _ end => blocker s
  | (match ?s with _ => _ end) _ => blocker s
  | negb ?b => b
  | _ => t
  end.

(* One more case split along the paths of a handler run. *)
Ltac path_step :=
  run;
  lazymatch goal with
  | |- match ?s with _ => _ end =>
      let b := blocker s in destruct b eqn:?; cbn [negb]
  | |- match ?s with _ => _ end = _ =>
      let b := blocker s in destruct b eqn:?; cbn [negb]
  end.

(* Every path of [finalizeOnboarding], each with the outcomes that lead to
   it as hypotheses. *)
Ltac finalize_paths :=
  unfold finalizeOnboarding, finalizeOnboarding_try, grantChannelAccess,
    appendToSheet, bind, try_catch, await, throw, eval, sessions_delete, ret;
  repeat path_step; run; cbn [app].

(* Membership of a call in an explicit list of calls. *)
Ltac in_calls := repeat first [ left; reflexivity | right ].

(** ** Validators *)

Lemma replace_class_by_space_clean s c :
  In c (replace_class_by_space is_crlftab s) -> is_crlftab c = false.
Proof.
  unfold replace_class_by_space. rewrite in_map_iff.
  intros (c0 & Hc & _). destruct (is_crlftab c0) eqn:E; subst; [reflexivity | exact E].
Qed.

Lemma is_crlftab_false c :
  is_crlftab c = false -> c <> 13 /\ c <> 10 /\ c <> 9.
Proof.
  unfold is_crlftab. intros H.
  apply orb_false_elim in H as [H H9]. apply orb_false_elim in H as [H13 H10].
  apply N.eqb_neq in H9, H13, H10. auto.
Qed.

(** C8. For every string [s], [sanitizeInput s] holds no carriage return
    (13), no line feed (10) and no tab (9), and is at most 500 code units
    long. *)
Theorem sanitizeInput_clean_and_bounded (s : jsstring) :
  ~ In 13 (sanitizeInput s) /\ ~ In 10 (sanitizeInput s) /\
  ~ In 9 (sanitizeInput s) /\ (length (sanitizeInput s) <= 500)%nat.
Proof.
  assert (Hclean : forall c, In c (sanitizeInput s) -> c <> 13 /\ c <> 10 /\ c <> 9).
  { intros c Hc. apply is_crlftab_false.
    apply (replace_class_by_space_clean (trim s)).
    unfold sanitizeInput, substring0 in Hc.
    rewrite <- (firstn_skipn 500 (replace_class_by_space is_crlftab (trim s))).
    apply in_or_app. left. exact Hc. }
  repeat split.
  - intros H. apply Hclean in H. tauto.
  - intros H. apply Hclean in H. tauto.
  - intros H. apply Hclean in H. tauto.
  - unfold sanitizeInput, substring0. rewrite length_firstn. lia.
Qed.

Lemma digitsOnly_length (s : jsstring) :
  length (remove_class (fun c => negb (is_digit c)) s) = digit_count s.
Proof.
  unfold remove_class. induction s as [| c s IH]; [reflexivity |].
  cbn [List.filter digit_count]. rewrite negb_involutive.
  change (is_digit c) with ((48 <=? c) && (c <=? 57)).
  destruct ((48 <=? c) && (c <=? 57)); cbn [length]; rewrite IH; reflexivity.
Qed.

(** C9. [isValidPhone s] is true exactly when [s] has between 10 and 15
    ASCII digits; "+1 (234) 567-8900" is valid and "12345" is not. *)
Theorem isValidPhone_iff_digit_count :
  (forall s : jsstring,
      isValidPhone s = true <-> (10 <= digit_count s <= 15)%nat) /\
  isValidPhone (js "+1 (234) 567-8900") = true /\
  digit_count (js "+1 (234) 567-8900") = 11%nat /\
  isValidPhone (js "12345") = false.
Proof.
  split; [| repeat split; vm_compute; reflexivity].
  intros s. unfold isValidPhone. cbv zeta. rewrite digitsOnly_length.
  rewrite andb_true_iff, !Nat.leb_le. reflexivity.
Qed.

(** ** Regular expressions: the derivative test decides the language *)

Lemma matches_Void s : ~ matches Void s.
Proof. intros H. inversion H. Qed.

Lemma matches_Eps s : matches Eps s <-> s = [].
Proof. split; [intros H; inversion H; reflexivity | intros ->; constructor]. Qed.

Lemma matches_Cls p s : matches (Cls p) s <-> exists c, s = [c] /\ p c = true.
Proof.
  split.
  - intros H. inversion H; subst. eauto.
  - intros (c & -> & Hc). constructor. exact Hc.
Qed.

Lemma matches_Cat r1 r2 s :
  matches (Cat r1 r2) s <->
  exists s1 s2, s = s1 ++ s2 /\ matches r1 s1 /\ matches r2 s2.
Proof.
  split.
  - intros H. inversion H; subst. eauto.
  - intros (s1 & s2 & -> & H1 & H2). constructor; assumption.
Qed.

Lemma matches_Alt r1 r2 s :
  matches (Alt r1 r2) s <-> matches r1 s \/ matches r2 s.
Proof.
  split.
  - intros H. inversion H; subst; auto.
  - intros [H | H]; [apply MAltL | apply MAltR]; exact H.
Qed.

Lemma matches_Opt r s : matches (Opt r) s <-> s = [] \/ matches r s.
Proof. unfold Opt. rewrite matches_Alt, matches_Eps. reflexivity. Qed.

(** A non-empty match of [r*] starts with a non-empty match of [r]. *)
Lemma matches_Star_cons r c s :
  matches (Star r) (c :: s) ->
  exists s1 s2, s = s1 ++ s2 /\ matches r (c :: s1) /\ matches (Star r) s2.
Proof.
  intros H. remember (Star r) as r' eqn:Er. remember (c :: s) as t eqn:Et.
  induction H as [| | | | | r0 | r0 s1 s2 H1 _ H2 IH2]; try discriminate.
  injection Er as ->.
  destruct s1 as [| c1 s1'].
  - cbn in Et. apply IH2; [reflexivity | exact Et].
  - cbn in Et. injection Et as Ec Es. subst c1 s. exists s1', s2. auto.
Qed.

Lemma nullable_matches r : nullable r = true <-> matches r [].
Proof.
  induction r as [| | p | r1 IH1 r2 IH2 | r1 IH1 r2 IH2 | r IH]; cbn [nullable].
  - split; [discriminate | intros H; inversion H].
  - split; [constructor | reflexivity].
  - split; [discriminate | intros H; inversion H].
  - rewrite andb_true_iff, IH1, IH2, matches_Cat. split.
    + intros [H1 H2]. exists [], []. auto.
    + intros (s1 & s2 & E & H1 & H2). symmetry in E.
      apply app_eq_nil in E as [-> ->]. auto.
  - rewrite orb_true_iff, IH1, IH2, matches_Alt. reflexivity.
  - split; [constructor | reflexivity].
Qed.

Lemma cat'_matches r1 r2 s : matches (cat' r1 r2) s <-> matches (Cat r1 r2) s.
Proof.
  rewrite matches_Cat.
  assert (HV1 : forall r, matches Void s <-> exists s1 s2, s = s1 ++ s2 /\ matches Void s1 /\ matches r s2).
  { intros r. split; [intros H; inversion H |].
    intros (s1 & s2 & _ & H & _). inversion H. }
  assert (HV2 : forall r, matches Void s <-> exists s1 s2, s = s1 ++ s2 /\ matches r s1 /\ matches Void s2).
  { intros r. split; [intros H; inversion H |].
    intros (s1 & s2 & _ & _ & H). inversion H. }
  assert (HE : forall r, matches r s <-> exists s1 s2, s = s1 ++ s2 /\ matches Eps s1 /\ matches r s2).
  { intros r. split.
    - intros H. exists [], s. repeat split; [constructor | exact H].
    - intros (s1 & s2 & -> & H1 & H2). apply matches_Eps in H1 as ->. exact H2. }
  destruct r1; cbn [cat']; try apply HV1;
    destruct r2; try apply HV2; try apply HE; apply matches_Cat.
Qed.

Lemma alt'_matches r1 r2 s : matches (alt' r1 r2) s <-> matches (Alt r1 r2) s.
Proof.
  rewrite matches_Alt.
  assert (HL : forall r, matches r s <-> matches Void s \/ matches r s).
  { intros r. split; [auto | intros [H | H]; [inversion H | exact H]]. }
  assert (HR : forall r, matches r s <-> matches r s \/ matches Void s).
  { intros r. split; [auto | intros [H | H]; [exact H | inversion H]]. }
  destruct r1; cbn [alt']; try apply HL;
    destruct r2; try apply HR; apply matches_Alt.
Qed.

Lemma deriv_matches r : forall c s, matches (deriv c r) s <-> matches r (c :: s).
Proof.
  induction r as [| | p | r1 IH1 r2 IH2 | r1 IH1 r2 IH2 | r IH];
    intros c s; cbn [deriv].
  - split; intros H; inversion H.
  - split; intros H; inversion H.
  - rewrite matches_Cls. destruct (p c) eqn:Ep.
    + rewrite matches_Eps. split.
      * intros ->. eauto.
      * intros (c' & E & _). injection E as _ ->. reflexivity.
    + split; [intros H; inversion H |].
      intros (c' & E & Hc'). injection E as -> _. congruence.
  - rewrite alt'_matches, matches_Alt, cat'_matches, !matches_Cat. split.
    + intros [(s1 & s2 & -> & H1 & H2) | H].
      * apply IH1 in H1. exists (c :: s1), s2. auto.
      * destruct (nullable r1) eqn:En; [| inversion H].
        apply nullable_matches in En. apply IH2 in H.
        exists [], (c :: s). auto.
    + intros (s1 & s2 & E & H1 & H2). destruct s1 as [| c1 s1'].
      * cbn in E. subst s2. right.
        apply nullable_matches in H1. rewrite H1. apply IH2. exact H2.
      * cbn in E. injection E as <- ->. left.
        exists s1', s2. repeat split; [apply IH1; exact H1 | exact H2].
  - rewrite alt'_matches, !matches_Alt, IH1, IH2. reflexivity.
  - rewrite cat'_matches, matches_Cat. split.
    + intros (s1 & s2 & -> & H1 & H2). apply IH in H1.
      change (c :: s1 ++ s2) with ((c :: s1) ++ s2). constructor; assumption.
    + intros H. apply matches_Star_cons in H as (s1 & s2 & -> & H1 & H2).
      exists s1, s2. repeat split; [apply IH; exact H1 | exact H2].
Qed.

Lemma regex_test_matches (s : jsstring) :
  forall r, regex_test r s = true <-> matches r s.
Proof.
  unfold regex_test. induction s as [| c s IH]; intros r; cbn [fold_left].
  - apply nullable_matches.
  - rewrite IH. apply deriv_matches.
Qed.

(** ** The language of the email pattern *)

Lemma matches_Star_concat r s :
  matches (Star r) s <-> exists ss, s = concat ss /\ Forall (matches r) ss.
Proof.
  split.
  - intros H. remember (Star r) as r' eqn:Er.
    induction H as [| | | | | r0 | r0 s1 s2 H1 _ H2 IH2]; try discriminate.
    + exists []. split; [reflexivity | constructor].
    + injection Er as ->. destruct (IH2 eq_refl) as (ss & -> & Hss).
      exists (s1 :: ss). split; [reflexivity | constructor; assumption].
  - intros (ss & -> & Hss). induction Hss as [| s1 ss H1 _ IH]; cbn [concat].
    + constructor.
    + constructor; assumption.
Qed.

Lemma matches_Star_Cls p s :
  matches (Star (Cls p)) s <-> Forall (fun c => p c = true) s.
Proof.
  split.
  - intros H. apply matches_Star_concat in H as (ss & -> & Hss).
    induction Hss as [| s1 ss H1 _ IH]; cbn [concat]; [constructor |].
    apply matches_Cls in H1 as (c & -> & Hc). constructor; assumption.
  - intros H. induction H as [| c s Hc _ IH]; [constructor |].
    change (c :: s) with ([c] ++ s). constructor; [constructor; exact Hc | exact IH].
Qed.

Lemma matches_Plus_Cls p s :
  matches (Plus (Cls p)) s <-> s <> [] /\ Forall (fun c => p c = true) s.
Proof.
  unfold Plus. rewrite matches_Cat. split.
  - intros (s1 & s2 & -> & H1 & H2). apply matches_Cls in H1 as (c & -> & Hc).
    apply matches_Star_Cls in H2. split; [discriminate | constructor; assumption].
  - intros [Hne H]. destruct H as [| c s Hc Hs]; [contradiction |].
    exists [c], s. repeat split; [constructor; exact Hc | apply matches_Star_Cls; exact Hs].
Qed.

Lemma matches_Upto_Cls p n : forall s,
  matches (Upto n (Cls p)) s <->
  (length s <= n)%nat /\ Forall (fun c => p c = true) s.
Proof.
  induction n as [| n IH]; intros s; cbn [Upto].
  - rewrite matches_Eps. split.
    + intros ->. split; [cbn; lia | constructor].
    + intros [Hl _]. destruct s; [reflexivity | cbn in Hl; lia].
  - rewrite matches_Opt, matches_Cat. split.
    + intros [-> | (s1 & s2 & -> & H1 & H2)].
      * split; [cbn; lia | constructor].
      * apply matches_Cls in H1 as (c & -> & Hc). apply IH in H2 as [Hl Hs].
        split; [cbn; lia | constructor; assumption].
    + intros [Hl Hs]. destruct Hs as [| c s Hc Hs]; [left; reflexivity |].
      right. exists [c], s. repeat split; [constructor; exact Hc |].
      apply IH. split; [cbn in Hl; lia | exact Hs].
Qed.

Lemma is_alnum_is_alnum_hyphen c : is_alnum c = true -> is_alnum_hyphen c = true.
Proof. unfold is_alnum_hyphen. intros ->. reflexivity. Qed.

Lemma matches_labelRegex l : matches labelRegex l <-> label_ok l.
Proof.
  unfold labelRegex, label_ok. rewrite matches_Cat. split.
  - intros (s1 & s2 & -> & H1 & H2). apply matches_Cls in H1 as (c & -> & Hc).
    apply matches_Opt in H2 as [-> | H2].
    + cbn. repeat split; try lia.
      * repeat constructor. apply is_alnum_is_alnum_hyphen, Hc.
      * eauto.
      * eauto.
    + apply matches_Cat in H2 as (m & t & -> & Hm & Ht).
      apply matches_Cls in Ht as (d & -> & Hd).
      apply matches_Upto_Cls in Hm as [Hl Hm].
      cbn [app head]. repeat split.
      * cbn. lia.
      * cbn. rewrite length_app. cbn. lia.
      * constructor; [apply is_alnum_is_alnum_hyphen, Hc |].
        apply Forall_app. split; [exact Hm |].
        repeat constructor. apply is_alnum_is_alnum_hyphen, Hd.
      * eauto.
      * exists d. split; [| exact Hd].
        change (c :: m ++ [d]) with ((c :: m) ++ [d]). apply last_snoc.
  - intros ([Hl1 Hl2] & Hall & (c & Hh & Hc) & (d & Hlast & Hd)).
    destruct l as [| c0 rest]; [discriminate |].
    cbn in Hh. injection Hh as ->.
    exists [c], rest. repeat split; [constructor; exact Hc |].
    apply matches_Opt.
    destruct (decide (rest = [])) as [-> | Hne]; [left; reflexivity | right].
    destruct (exists_last Hne) as (m & d' & ->).
    change (c :: m ++ [d']) with ((c :: m) ++ [d']) in Hlast.
    rewrite last_snoc in Hlast. injection Hlast as ->.
    apply matches_Cat. exists m, [d]. repeat split; [| constructor; exact Hd].
    apply matches_Upto_Cls. split.
    + cbn in Hl2. rewrite length_app in Hl2. cbn in Hl2. lia.
    + apply Forall_cons in Hall as [_ Hall].
      apply Forall_app in Hall as [Hall _]. exact Hall.
Qed.

Lemma matches_dot_labels s :
  matches (Star (Cat (Chr ".") labelRegex)) s <->
  exists ls, s = concat (map (fun l' => code "." :: l') ls) /\ Forall label_ok ls.
Proof.
  rewrite matches_Star_concat. split.
  - intros (ss & -> & Hss). induction Hss as [| s1 ss H1 _ (ls & E & Hls)].
    + exists []. split; [reflexivity | constructor].
    + apply matches_Cat in H1 as (d & l & -> & Hd & Hl).
      apply matches_Cls in Hd as (c & -> & Hc). apply N.eqb_eq in Hc. subst c.
      apply matches_labelRegex in Hl.
      exists (l :: ls). split; [| constructor; assumption].
      cbn [concat map app]. rewrite E. reflexivity.
  - intros (ls & -> & Hls). exists (map (fun l' => code "." :: l') ls).
    split; [reflexivity |].
    induction Hls as [| l ls Hl _ IH]; cbn [map]; constructor; [| exact IH].
    change (code "." :: l) with ([code "."] ++ l). constructor.
    + constructor. apply N.eqb_refl.
    + apply matches_labelRegex. exact Hl.
Qed.

Lemma matches_emailRegex t : matches emailRegex t <-> email_shape t.
Proof.
  unfold emailRegex, email_shape. rewrite matches_Cat. split.
  - intros (loc & rest & -> & Hloc & Hrest).
    apply matches_Plus_Cls in Hloc as [Hne Hloc].
    apply matches_Cat in Hrest as (a & dom & -> & Ha & Hdom).
    apply matches_Cls in Ha as (c & -> & Hc). apply N.eqb_eq in Hc. subst c.
    apply matches_Cat in Hdom as (l & tl & -> & Hl & Htl).
    apply matches_labelRegex in Hl.
    apply matches_dot_labels in Htl as (ls & -> & Hls).
    exists loc, (l :: ls). repeat split; try assumption; try discriminate.
    constructor; assumption.
  - intros (loc & labels & -> & Hne & Hloc & Hlne & Hls).
    destruct Hls as [| l ls Hl Hls]; [contradiction |].
    exists loc, (code "@" :: join_dots (l :: ls)).
    repeat split; [apply matches_Plus_Cls; auto |].
    change (code "@" :: join_dots (l :: ls)) with ([code "@"] ++ join_dots (l :: ls)).
    constructor; [constructor; apply N.eqb_refl |].
    cbn [join_dots]. constructor; [apply matches_labelRegex; exact Hl |].
    apply matches_dot_labels. eauto.
Qed.

Lemma isValidEmail_shape (s : jsstring) :
  isValidEmail s = true <-> email_shape (trim s).
Proof. unfold isValidEmail. rewrite regex_test_matches. apply matches_emailRegex. Qed.

(** C4, counterexample. The claim that a bare domain is refused does not
    hold of the pattern:
    its dot group may repeat zero times. *)
Lemma isValidEmail_accepts_bare_domain :
  isValidEmail (js "a@b") = true /\ isValidEmail (js "a@b") <> false.
Proof. split; [vm_compute; reflexivity | vm_compute; discriminate]. Qed.

(** C4 (amended). [isValidEmail] accepts "user@example.com" and the bare
    domain "a@b" and refuses "not-an-email"; in general it accepts a string
    exactly when, once trimmed, it is a non-empty local part of the allowed
    symbols, [@], and one or more dot-separated labels, each of 1 to 63
    alphanumerics or hyphens that starts and ends with an alphanumeric. *)
Theorem isValidEmail_characterised :
  isValidEmail (js "user@example.com") = true /\
  isValidEmail (js "not-an-email") = false /\
  isValidEmail (js "a@b") = true /\
  (forall s : jsstring, isValidEmail s = true <-> email_shape (trim s)).
Proof.
  repeat split; try (vm_compute; reflexivity); apply isValidEmail_shape.
Qed.

(** ** The allow-list lookup *)

Lemma verifyPaidLearner_returns P email :
  exists v, verifyPaidLearner P email = Ok v.
Proof.
  unfold verifyPaidLearner. destruct (verifyPaidLearner_try P email); eauto.
Qed.

Lemma verifyPaidLearner_unavailable P email :
  roster_unavailable (paidLearners_json P) = true ->
  verifyPaidLearner P email = Ok notVerified.
Proof.
  unfold verifyPaidLearner, verifyPaidLearner_try.
  destruct (paidLearners_json P); intros H; try reflexivity. discriminate.
Qed.

Lemma array_find_not_listed P entries email :
  not_listed P entries email ->
  forall x, array_find (learner_matches P (trim (toLowerCase P email))) entries
            <> Ok (Some x).
Proof.
  unfold not_listed. induction 1 as [| j l Hj _ IH]; intros x; cbn [array_find].
  - discriminate.
  - destruct (learner_matches P _ j) as [[|] |] eqn:Ej; [| apply IH | discriminate].
    exfalso. unfold learner_matches in Ej.
    destruct j as [| b | z | s | l' | fs]; cbn in Ej; try discriminate.
    destruct (assoc "email" fs) as [[| b | z | s | l' | fs'] |] eqn:Ea;
      cbn in Ej; try discriminate;
      try (destruct (negb _); discriminate); try (destruct b; discriminate).
    destruct (negb _); [| discriminate]. injection Ej as Ej.
    unfold jsstring_eqb in Ej. apply bool_decide_eq_true in Ej.
    apply (Hj s); [| exact Ej]. cbn. rewrite Ea. reflexivity.
Qed.

(** An email that no roster entry carries is answered "not verified". *)
Lemma verifyPaidLearner_not_listed P entries email :
  paidLearners_json P = FileJson (JArr entries) ->
  not_listed P entries email ->
  verifyPaidLearner P (Some email) = Ok notVerified.
Proof.
  intros Hfile Hnot. unfold verifyPaidLearner, verifyPaidLearner_try.
  rewrite Hfile.
  pose proof (array_find_not_listed P entries email Hnot) as H.
  destruct (array_find _ entries) as [[x |] |]; [| reflexivity | reflexivity].
  destruct (H x). reflexivity.
Qed.

(** ** Finalization *)

(** The channel grant never throws, leaves the registries alone and sends
    no direct message. *)
Lemma grantChannelAccess_frame P guild member session w :
  exists cs, grantChannelAccess P guild member session w = (Ok tt, w, cs) /\
             forall a c, ~ In (DmSend a c) cs.
Proof.
  unfold grantChannelAccess, try_catch, bind, await, ret.
  destruct (channelId_truthy (channelId session)) as [cid |].
  - destruct (guild_channels guild !! cid) as [ch |].
    + destruct (resolves P (PermissionOverwritesCreate _ _));
        [destruct (resolves P (ChannelSend _ _)) |];
        eexists; (split; [reflexivity |]); intros a c; not_in_calls.
    + eexists; split; [reflexivity |]. intros a c [].
  - eexists; split; [reflexivity |]. intros a c [].
Qed.

(** The [try] block sends no generic failure message; it removes the
    session when it completes and leaves the world alone when it throws. *)
Lemma finalizeOnboarding_try_outcome P message session w :
  let '(r, w', cs) := finalizeOnboarding_try P message session w in
  ~ In (DmSend (author_id message) FinalizeFailureMessage) cs /\
  match r with
  | Ok _ => w' = session_removed session w
  | Throw _ => w' = w
  end.
Proof.
  unfold finalizeOnboarding_try, appendToSheet, bind, try_catch, await, throw,
    eval, sessions_delete, ret. run.
  destruct (resolves P (DmSend _ ProcessingNotice)); [| thrown]. run.
  destruct (verifyPaidLearner P _) as [v | e]; [| thrown]. run.
  destruct (isVerified v); cbn [negb]; run.
  2: { destruct (resolves P (DmSend _ RejectionMessage)); thrown. }
  destruct (resolves P (AppendToSheet (sheetData_of session))); [| thrown]. run.
  destruct (client_guilds P !! guildId session) as [guild |]; [| thrown]. run.
  destruct (resolves P (MembersFetch (guildId session) (userId session))); [| thrown].
  run.
  destruct (fetched_member P (guildId session) (userId session)) as [member |];
    [| thrown]. run.
  destruct (grantChannelAccess_frame P guild member session w) as (gcs & Eg & Hg).
  destruct (find _ (guild_roles guild)) as [role |]; run.
  - destruct (resolves P (RolesAdd (member_id member) role)); [| thrown]. run.
    rewrite Eg. run.
    destruct (resolves P (DmSend _ (ConfirmationMessage _ _))); run;
      (split; [not_in_calls_with Hg | reflexivity]).
  - rewrite Eg. run.
    destruct (resolves P (DmSend _ (ConfirmationMessage _ _))); run;
      (split; [not_in_calls_with Hg | reflexivity]).
Qed.

(** When every call resolves and the guild and the member are found, the
    [try] block completes. *)
Lemma finalizeOnboarding_try_completes P message session w :
  (forall c, resolves P c = true) ->
  is_Some (client_guilds P !! guildId session) ->
  is_Some (fetched_member P (guildId session) (userId session)) ->
  exists w' cs, finalizeOnboarding_try P message session w = (Ok tt, w', cs).
Proof.
  intros Hres [guild Hguild] [member Hmember].
  unfold finalizeOnboarding_try, appendToSheet, bind, try_catch, await, throw,
    eval, sessions_delete, ret. run.
  rewrite !Hres. run.
  destruct (verifyPaidLearner_returns P (data session !! "email"%string)) as [v ->].
  run. destruct (isVerified v); cbn [negb]; run.
  2: { rewrite ?Hres. run. eauto. }
  rewrite Hguild. run. rewrite Hmember. run.
  destruct (grantChannelAccess_frame P guild member session w) as (gcs & Eg & _).
  destruct (find _ (guild_roles guild)) as [role |]; run;
    rewrite ?Hres; run; rewrite Eg; run; eauto.
Qed.

(** On a "not verified" lookup the run is decided by the two sends of the
    rejection branch: both delivered, the session is deleted; one of them
    rejected, the [catch] block runs and the registries stay as they were. *)
Lemma finalizeOnboarding_not_verified P message session w :
  verifyPaidLearner P (data session !! "email"%string) = Ok notVerified ->
  finalizeOnboarding P message session w =
    if resolves P (DmSend (author_id message) ProcessingNotice) then
      if resolves P (DmSend (author_id message) RejectionMessage) then
        (Ok tt, session_removed session w,
         [DmSend (author_id message) ProcessingNotice;
          DmSend (author_id message) RejectionMessage])
      else
        (Ok tt, w,
         [DmSend (author_id message) ProcessingNotice;
          DmSend (author_id message) RejectionMessage;
          DmSend (author_id message) FinalizeFailureMessage])
    else
      (Ok tt, w,
       [DmSend (author_id message) ProcessingNotice;
        DmSend (author_id message) FinalizeFailureMessage]).
Proof.
  intros Hv.
  unfold finalizeOnboarding, finalizeOnboarding_try, bind, try_catch, await,
    eval, sessions_delete, ret. run.
  rewrite Hv. cbn [isVerified notVerified negb].
  destruct (resolves P (DmSend (author_id message) ProcessingNotice));
    destruct (resolves P (DmSend (author_id message) RejectionMessage));
    destruct (resolves P (DmSend (author_id message) FinalizeFailureMessage));
    reflexivity.
Qed.

(** C1, counterexample. The claim that a "not verified" lookup always ends
    with the session deleted fails on a run whose rejection message is
    rejected: the [catch] block sends the generic failure message and the
    session of the user is still in the registry. *)
Lemma finalize_rejection_may_keep_the_session :
  verifyPaidLearner closed_dm_platform (data unknown_session !! "email"%string)
    = Ok notVerified /\
  finalizeOnboarding closed_dm_platform jane_message unknown_session
      (demo_world unknown_session) =
    (Ok tt, demo_world unknown_session,
     [DmSend "u1" ProcessingNotice; DmSend "u1" RejectionMessage;
      DmSend "u1" FinalizeFailureMessage]) /\
  onboardingSessions (demo_world unknown_session) !! userId unknown_session
    = Some unknown_session /\
  ~ (forall P message session w,
       verifyPaidLearner P (data session !! "email"%string) = Ok notVerified ->
       let '(_, w', cs) := finalizeOnboarding P message session w in
       In (DmSend (author_id message) RejectionMessage) cs /\
       onboardingSessions w' !! userId session = None).
Proof.
  split; [vm_compute; reflexivity |].
  split; [vm_compute; reflexivity |].
  split; [vm_compute; reflexivity |].
  intros H.
  specialize (H closed_dm_platform jane_message unknown_session
                (demo_world unknown_session)).
  vm_compute in H. destruct (H eq_refl) as [_ Hgone]. discriminate Hgone.
Qed.

(** C1 (amended). When the lookup of the session's email answers "not
    verified", [finalizeOnboarding] returns without any external write (no
    row, no role, no permission). The progress notice and the rejection
    message being delivered, it sends exactly these two messages and
    deletes the session from the registry. When the rejection message is
    rejected, or the progress notice is (no rejection message is then
    sent), the generic failure message follows and both registries are as
    before: the session is kept. *)
Theorem finalize_rejects_unverified P message session w :
  verifyPaidLearner P (data session !! "email"%string) = Ok notVerified ->
  let '(r, w', cs) := finalizeOnboarding P message session w in
  r = Ok tt /\
  forallb (fun c => negb (is_external_write c)) cs = true /\
  (resolves P (DmSend (author_id message) ProcessingNotice) = true ->
   resolves P (DmSend (author_id message) RejectionMessage) = true ->
   cs = [DmSend (author_id message) ProcessingNotice;
         DmSend (author_id message) RejectionMessage] /\
   w' = session_removed session w /\
   onboardingSessions w' !! userId session = None) /\
  (resolves P (DmSend (author_id message) ProcessingNotice) = true ->
   resolves P (DmSend (author_id message) RejectionMessage) = false ->
   cs = [DmSend (author_id message) ProcessingNotice;
         DmSend (author_id message) RejectionMessage;
         DmSend (author_id message) FinalizeFailureMessage] /\
   w' = w) /\
  (resolves P (DmSend (author_id message) ProcessingNotice) = false ->
   cs = [DmSend (author_id message) ProcessingNotice;
         DmSend (author_id message) FinalizeFailureMessage] /\
   w' = w).
Proof.
  intros Hv. rewrite (finalizeOnboarding_not_verified P message session w Hv).
  destruct (resolves P (DmSend (author_id message) ProcessingNotice));
    destruct (resolves P (DmSend (author_id message) RejectionMessage));
    cbv beta iota;
    (split; [reflexivity |]); (split; [reflexivity |]);
    (split; [intros Hn Hr;
             first [ discriminate
                   | split; [reflexivity |];
                     split; [reflexivity | apply lookup_delete_eq] ] |]);
    (split; [intros Hn Hr; first [ discriminate | split; reflexivity ] |]);
    intros Hn; first [ discriminate | split; reflexivity ].
Qed.

Lemma finalize_rejects_unverified_witness :
  (verifyPaidLearner paid_platform (data unknown_session !! "email"%string)
     = Ok notVerified /\
   resolves paid_platform (DmSend (author_id jane_message) ProcessingNotice) = true /\
   resolves paid_platform (DmSend (author_id jane_message) RejectionMessage) = true /\
   onboardingSessions (demo_world unknown_session) !! userId unknown_session
     = Some unknown_session /\
   snd (finalizeOnboarding paid_platform jane_message unknown_session
          (demo_world unknown_session)) =
     [DmSend (author_id jane_message) ProcessingNotice;
      DmSend (author_id jane_message) RejectionMessage] /\
   onboardingSessions
     (snd (fst (finalizeOnboarding paid_platform jane_message unknown_session
                  (demo_world unknown_session)))) !! userId unknown_session = None) /\
  (verifyPaidLearner closed_dm_platform (data unknown_session !! "email"%string)
     = Ok notVerified /\
   resolves closed_dm_platform (DmSend (author_id jane_message) ProcessingNotice) = true /\
   resolves closed_dm_platform (DmSend (author_id jane_message) RejectionMessage) = false /\
   snd (fst (finalizeOnboarding closed_dm_platform jane_message unknown_session
               (demo_world unknown_session))) = demo_world unknown_session).
Proof.
  assert (Hv : verifyPaidLearner paid_platform (data unknown_session !! "email"%string)
               = Ok notVerified) by (vm_compute; reflexivity).
  assert (Hv' : verifyPaidLearner closed_dm_platform
                  (data unknown_session !! "email"%string) = Ok notVerified)
    by (vm_compute; reflexivity).
  split.
  - split; [exact Hv |]. split; [reflexivity |]. split; [reflexivity |].
    split; [vm_compute; reflexivity |].
    pose proof (finalize_rejects_unverified paid_platform jane_message
                  unknown_session (demo_world unknown_session) Hv) as H.
    destruct (finalizeOnboarding paid_platform jane_message unknown_session
                (demo_world unknown_session)) as [[r w'] cs].
    destruct H as (_ & _ & H & _).
    destruct (H eq_refl eq_refl) as (Hcs & _ & Hgone).
    split; [exact Hcs | exact Hgone].
  - split; [exact Hv' |]. split; [reflexivity |]. split; [reflexivity |].
    pose proof (finalize_rejects_unverified closed_dm_platform jane_message
                  unknown_session (demo_world unknown_session) Hv') as H.
    destruct (finalizeOnboarding closed_dm_platform jane_message unknown_session
                (demo_world unknown_session)) as [[r w'] cs].
    destruct H as (_ & _ & _ & H & _).
    destruct (H eq_refl eq_refl) as [_ Hw]. exact Hw.
Defined.

(** C2. When the lookup verifies the email and the spreadsheet append
    rejects, [finalizeOnboarding] returns with both registries as they
    were (the session is not deleted), having issued the progress notice,
    one append and the generic failure message, and nothing after it: the
    append is not tried again. *)
Theorem finalize_keeps_session_on_append_failure P message session w v :
  verifyPaidLearner P (data session !! "email"%string) = Ok v ->
  isVerified v = true ->
  resolves P (DmSend (author_id message) ProcessingNotice) = true ->
  resolves P (AppendToSheet (sheetData_of session)) = false ->
  finalizeOnboarding P message session w =
    (Ok tt, w, [DmSend (author_id message) ProcessingNotice;
                AppendToSheet (sheetData_of session);
                DmSend (author_id message) FinalizeFailureMessage]).
Proof.
  intros Hv Hverified Hnotice Happend.
  unfold finalizeOnboarding, finalizeOnboarding_try, appendToSheet, bind,
    try_catch, await, throw, eval, ret. run.
  rewrite Hnotice, Hv. run. rewrite Hverified. cbn [negb]. run.
  rewrite Happend. run.
  destruct (resolves P (DmSend (author_id message) FinalizeFailureMessage));
    reflexivity.
Qed.

Lemma finalize_keeps_session_on_append_failure_witness :
  exists v,
    verifyPaidLearner failing_sheet_platform (data paid_session !! "email"%string) = Ok v /\
    isVerified v = true /\
    resolves failing_sheet_platform (DmSend (author_id jane_message) ProcessingNotice) = true /\
    resolves failing_sheet_platform (AppendToSheet (sheetData_of paid_session)) = false /\
    finalizeOnboarding failing_sheet_platform jane_message paid_session
        (demo_world paid_session) =
      (Ok tt, demo_world paid_session,
       [DmSend (author_id jane_message) ProcessingNotice;
        AppendToSheet (sheetData_of paid_session);
        DmSend (author_id jane_message) FinalizeFailureMessage]) /\
    onboardingSessions (demo_world paid_session) !! userId paid_session
      = Some paid_session.
Proof.
  eexists. split; [vm_compute; reflexivity |].
  split; [reflexivity |]. split; [reflexivity |]. split; [reflexivity |].
  split; [| vm_compute; reflexivity].
  eapply (finalize_keeps_session_on_append_failure failing_sheet_platform
            jane_message paid_session (demo_world paid_session));
    vm_compute; reflexivity.
Defined.




(** C10, counterexample. With the allow-list file missing, a run whose
    rejection message is rejected takes the rejection branch and still ends
    in the [catch] block: the session of the user is kept, not deleted. *)
Lemma unavailable_roster_may_keep_the_session :
  roster_unavailable (paidLearners_json closed_dm_no_roster_platform) = true /\
  finalizeOnboarding closed_dm_no_roster_platform jane_message paid_session
      (demo_world paid_session) =
    (Ok tt, demo_world paid_session,
     [DmSend "u1" ProcessingNotice; DmSend "u1" RejectionMessage;
      DmSend "u1" FinalizeFailureMessage]) /\
  onboardingSessions (demo_world paid_session) !! userId paid_session
    = Some paid_session /\
  ~ (forall P message session w,
       roster_unavailable (paidLearners_json P) = true ->
       let '(_, w', _) := finalizeOnboarding P message session w in
       onboardingSessions w' !! userId session = None).
Proof.
  split; [reflexivity |].
  split; [vm_compute; reflexivity |].
  split; [vm_compute; reflexivity |].
  intros H.
  specialize (H closed_dm_no_roster_platform jane_message paid_session
                (demo_world paid_session) eq_refl).
  vm_compute in H. discriminate H.
Qed.

(** C10 (amended). [verifyPaidLearner] returns for every email and never
    throws; it answers "not verified" when the allow-list file is missing,
    unreadable or malformed. [finalizeOnboarding] then takes the rejection
    branch and writes nothing outside: the progress notice and the
    rejection message being delivered, these are the two calls of the run
    and the session is deleted; when the rejection message is rejected, or
    the progress notice is, the generic failure message follows and the
    session is kept, as on any other failure. *)
Theorem verifyPaidLearner_total P email message session w :
  (exists v, verifyPaidLearner P email = Ok v) /\
  (roster_unavailable (paidLearners_json P) = true ->
   verifyPaidLearner P email = Ok notVerified) /\
  (roster_unavailable (paidLearners_json P) = true ->
   resolves P (DmSend (author_id message) ProcessingNotice) = true ->
   resolves P (DmSend (author_id message) RejectionMessage) = true ->
   finalizeOnboarding P message session w =
     (Ok tt, session_removed session w,
      [DmSend (author_id message) ProcessingNotice;
       DmSend (author_id message) RejectionMessage])) /\
  (roster_unavailable (paidLearners_json P) = true ->
   resolves P (DmSend (author_id message) ProcessingNotice) = true ->
   resolves P (DmSend (author_id message) RejectionMessage) = false ->
   finalizeOnboarding P message session w =
     (Ok tt, w,
      [DmSend (author_id message) ProcessingNotice;
       DmSend (author_id message) RejectionMessage;
       DmSend (author_id message) FinalizeFailureMessage])) /\
  (roster_unavailable (paidLearners_json P) = true ->
   resolves P (DmSend (author_id message) ProcessingNotice) = false ->
   finalizeOnboarding P message session w =
     (Ok tt, w,
      [DmSend (author_id message) ProcessingNotice;
       DmSend (author_id message) FinalizeFailureMessage])).
Proof.
  split; [apply verifyPaidLearner_returns |].
  split; [apply verifyPaidLearner_unavailable |].
  split; [| split].
  - intros Hroster Hnotice Hreject.
    rewrite (finalizeOnboarding_not_verified P message session w
               (verifyPaidLearner_unavailable P _ Hroster)).
    rewrite Hnotice, Hreject. reflexivity.
  - intros Hroster Hnotice Hreject.
    rewrite (finalizeOnboarding_not_verified P message session w
               (verifyPaidLearner_unavailable P _ Hroster)).
    rewrite Hnotice, Hreject. reflexivity.
  - intros Hroster Hnotice.
    rewrite (finalizeOnboarding_not_verified P message session w
               (verifyPaidLearner_unavailable P _ Hroster)).
    rewrite Hnotice. reflexivity.
Qed.

Lemma verifyPaidLearner_total_witness :
  roster_unavailable (paidLearners_json no_roster_platform) = true /\
  resolves no_roster_platform (DmSend (author_id jane_message) ProcessingNotice) = true /\
  resolves no_roster_platform (DmSend (author_id jane_message) RejectionMessage) = true /\
  verifyPaidLearner no_roster_platform (data paid_session !! "email"%string)
    = Ok notVerified /\
  finalizeOnboarding no_roster_platform jane_message paid_session
      (demo_world paid_session) =
    (Ok tt, session_removed paid_session (demo_world paid_session),
     [DmSend (author_id jane_message) ProcessingNotice;
      DmSend (author_id jane_message) RejectionMessage]) /\
  roster_unavailable (paidLearners_json closed_dm_no_roster_platform) = true /\
  resolves closed_dm_no_roster_platform
    (DmSend (author_id jane_message) ProcessingNotice) = true /\
  resolves closed_dm_no_roster_platform
    (DmSend (author_id jane_message) RejectionMessage) = false /\
  finalizeOnboarding closed_dm_no_roster_platform jane_message paid_session
      (demo_world paid_session) =
    (Ok tt, demo_world paid_session,
     [DmSend (author_id jane_message) ProcessingNotice;
      DmSend (author_id jane_message) RejectionMessage;
      DmSend (author_id jane_message) FinalizeFailureMessage]).
Proof.
  pose proof (verifyPaidLearner_total no_roster_platform
                (data paid_session !! "email"%string) jane_message paid_session
                (demo_world paid_session)) as (_ & Hv & Hf & _).
  pose proof (verifyPaidLearner_total closed_dm_no_roster_platform
                (data paid_session !! "email"%string) jane_message paid_session
                (demo_world paid_session)) as (_ & _ & _ & Hk & _).
  split; [reflexivity |]. split; [reflexivity |]. split; [reflexivity |].
  split; [apply Hv; reflexivity |].
  split; [apply Hf; reflexivity |].
  split; [reflexivity |]. split; [reflexivity |]. split; [reflexivity |].
  apply Hk; reflexivity.
Defined.

(** ** The invite tracker *)

Lemma uses_increased_true old inv :
  uses_increased old inv = true <->
  exists u, old !! inv_code inv = Some u /\ (u < inv_uses inv)%Z.
Proof.
  unfold uses_increased. destruct (old !! inv_code inv) as [u |].
  - rewrite Z.ltb_lt. split; [eauto |]. intros (u' & E & H). congruence.
  - split; [discriminate |]. intros (u' & E & _). discriminate.
Qed.

Lemma uses_increased_false old inv :
  uses_increased old inv = false <->
  forall u, old !! inv_code inv = Some u -> (inv_uses inv <= u)%Z.
Proof.
  unfold uses_increased. destruct (old !! inv_code inv) as [u |].
  - rewrite Z.ltb_ge. split; [intros H u' E; congruence | auto].
  - split; [intros _ u' E; discriminate | reflexivity].
Qed.

Lemma find_first_increase old (fetched : list Invite) inv :
  find (uses_increased old) fetched = Some inv <-> first_increase old fetched inv.
Proof.
  unfold first_increase. induction fetched as [| i l IH]; cbn [find].
  - split; [discriminate |]. intros (l1 & l2 & E & _). destruct l1; discriminate.
  - destruct (uses_increased old i) eqn:Ei.
    + split.
      * intros [= ->]. exists [], l. repeat split; [| constructor].
        apply uses_increased_true. exact Ei.
      * intros (l1 & l2 & E & Hinc & Hl1). destruct l1 as [| i1 l1'].
        -- cbn in E. congruence.
        -- cbn in E. injection E as <- _. apply Forall_cons in Hl1 as [Hi _].
           apply uses_increased_false in Hi. congruence.
    + rewrite IH. split.
      * intros (l1 & l2 & -> & Hinc & Hl1). exists (i :: l1), l2.
        repeat split; [exact Hinc |]. constructor; [| exact Hl1].
        apply uses_increased_false. exact Ei.
      * intros (l1 & l2 & E & Hinc & Hl1). destruct l1 as [| i1 l1'].
        -- cbn in E. injection E as -> _.
           apply uses_increased_true in Hinc. congruence.
        -- cbn in E. injection E as _ ->. apply Forall_cons in Hl1 as [_ Hl1].
           exists l1', l2. auto.
Qed.

(** With a cache entry and a fetch that resolves, the call returns what
    [find] returns and replaces the entry with the fetched counts. *)
Lemma detectUsedInvite_with_cache P guild w old :
  resolves P (InvitesFetch guild) = true ->
  invites w !! guild = Some old ->
  detectUsedInvite P guild w =
    (Ok (find (uses_increased old) (fetched_invites P guild)),
     {| invites := <[guild := collection_of_invites (fetched_invites P guild)]> (invites w);
        onboardingSessions := onboardingSessions w |},
     [InvitesFetch guild]).
Proof.
  intros Hres Hold.
  unfold detectUsedInvite, try_catch, bind, await, get_world, invites_set, ret.
  rewrite Hres. run. rewrite Hold. reflexivity.
Qed.

(** Without a cache entry the call returns [null] and leaves the registries
    as they were, whether the fetch resolves or not. *)
Lemma detectUsedInvite_without_cache P guild w :
  invites w !! guild = None ->
  detectUsedInvite P guild w = (Ok None, w, [InvitesFetch guild]).
Proof.
  intros Hnone.
  unfold detectUsedInvite, try_catch, bind, await, get_world, invites_set, ret.
  destruct (resolves P (InvitesFetch guild)); run; rewrite ?Hnone; reflexivity.
Qed.

Lemma detectUsedInvite_returns P guild w :
  exists v w' cs, detectUsedInvite P guild w = (Ok v, w', cs).
Proof.
  destruct (invites w !! guild) as [old |] eqn:Hold.
  - destruct (resolves P (InvitesFetch guild)) eqn:Hres.
    + rewrite (detectUsedInvite_with_cache P guild w old Hres Hold). eauto.
    + unfold detectUsedInvite, try_catch, bind, await, ret. rewrite Hres. run. eauto.
  - rewrite (detectUsedInvite_without_cache P guild w Hold). eauto.
Qed.

(** C5. With the cache {A:5, B:2} and the fetched invites {A:5, B:3},
    [detectUsedInvite] returns invite B. It never throws, and returns
    [null] when the guild has no cache entry. With a cache entry and a
    fetch that resolves, it returns an invite exactly when that invite is
    the first fetched one whose use-count exceeds the cached count of the
    same code. *)
Theorem detectUsedInvite_first_increased_invite P guild w :
  fst (fst (detectUsedInvite paid_platform "g1" (demo_world paid_session)))
    = Ok (Some invite_B) /\
  (exists v w' cs, detectUsedInvite P guild w = (Ok v, w', cs)) /\
  (invites w !! guild = None ->
   fst (fst (detectUsedInvite P guild w)) = Ok None) /\
  (forall old inv,
      resolves P (InvitesFetch guild) = true ->
      invites w !! guild = Some old ->
      fst (fst (detectUsedInvite P guild w)) = Ok (Some inv) <->
      first_increase old (fetched_invites P guild) inv).
Proof.
  split; [vm_compute; reflexivity |].
  split; [apply detectUsedInvite_returns |].
  split.
  - intros Hnone. rewrite (detectUsedInvite_without_cache P guild w Hnone).
    reflexivity.
  - intros old inv Hres Hold.
    rewrite (detectUsedInvite_with_cache P guild w old Hres Hold).
    cbn [fst]. rewrite <- find_first_increase.
    split; [intros [= E]; exact E | intros ->; reflexivity].
Qed.

Lemma detectUsedInvite_first_increased_invite_witness :
  invites world_without_cache !! "g1"%string = None /\
  fst (fst (detectUsedInvite paid_platform "g1" world_without_cache)) = Ok None /\
  resolves paid_platform (InvitesFetch "g1") = true /\
  invites (demo_world paid_session) !! "g1"%string
    = Some (<["A"%string := 5%Z]> ({[ "B"%string := 2%Z ]})) /\
  first_increase (<["A"%string := 5%Z]> ({[ "B"%string := 2%Z ]}))
    (fetched_invites paid_platform "g1") invite_B.
Proof.
  split; [reflexivity |].
  split.
  - apply (detectUsedInvite_first_increased_invite paid_platform "g1"
             world_without_cache). reflexivity.
  - split; [reflexivity |]. split; [vm_compute; reflexivity |].
    apply (detectUsedInvite_first_increased_invite paid_platform "g1"
             (demo_world paid_session));
      vm_compute; reflexivity.
Defined.

(** C6, at the failing input. The guild has no cache entry and the fetch
    resolves with {A:5, B:3}: [detectUsedInvite] returns [null] before the
    cache update, and the guild still has no entry afterwards. *)
Theorem detectUsedInvite_no_refresh_without_cache :
  resolves paid_platform (InvitesFetch "g1") = true /\
  fetched_invites paid_platform "g1" = [invite_A; invite_B] /\
  detectUsedInvite paid_platform "g1" world_without_cache
    = (Ok None, world_without_cache, [InvitesFetch "g1"]) /\
  invites (snd (fst (detectUsedInvite paid_platform "g1" world_without_cache)))
    !! "g1"%string = None /\
  invites (snd (fst (cacheInvites paid_platform "g1" world_without_cache)))
    !! "g1"%string = Some (collection_of_invites [invite_A; invite_B]).
Proof. repeat split; vm_compute; reflexivity. Qed.

(** ** The message handler *)

(** C7. For a message whose author has no session in the registry, or has
    one whose [started] flag is false, the handler returns with both
    registries unchanged (the sessions, their question index and their
    data) and issues no call, so no reply. *)
Theorem messageCreate_ignored_before_start P message w :
  (onboardingSessions w !! author_id message = None \/
   exists session, onboardingSessions w !! author_id message = Some session /\
                   started session = false) ->
  messageCreate P message w = (Ok tt, w, []).
Proof.
  intros H. unfold messageCreate, bind, get_world, ret.
  destruct (author_bot message || in_guild message); [reflexivity |]. run.
  destruct H as [-> | (session & -> & Hs)]; [reflexivity |].
  rewrite Hs. reflexivity.
Qed.

Lemma messageCreate_ignored_before_start_witness :
  (onboardingSessions (demo_world unstarted_session) !! author_id jane_message = None \/
   exists session,
     onboardingSessions (demo_world unstarted_session) !! author_id jane_message
       = Some session /\ started session = false) /\
  messageCreate paid_platform jane_message (demo_world unstarted_session)
    = (Ok tt, demo_world unstarted_session, []).
Proof.
  assert (H : onboardingSessions (demo_world unstarted_session) !! author_id jane_message = None \/
              exists session,
                onboardingSessions (demo_world unstarted_session) !! author_id jane_message
                  = Some session /\ started session = false).
  { right. exists unstarted_session. split; [vm_compute; reflexivity | reflexivity]. }
  split; [exact H |].
  apply (messageCreate_ignored_before_start paid_platform jane_message
           (demo_world unstarted_session) H).
Defined.

(** ** The flow on the scenarios *)

(** A started session at the last question: a valid phone number runs the
    finalization, which appends one row, grants the role and the channel,
    confirms, and removes the session. *)
Example messageCreate_last_answer_finalizes :
  messageCreate paid_platform jane_message
    (demo_world (jane_session "jane@scaler.com" true 2)) =
  (Ok tt,
   session_removed paid_session (demo_world paid_session),
   [DmSend "u1" ProcessingNotice;
    AppendToSheet (sheetData_of paid_session);
    MembersFetch "g1" "u1";
    RolesAdd "u1" {| role_id := "r1"; role_name := "Learner" |};
    PermissionOverwritesCreate "c1" "u1";
    ChannelSend "c1" "u1";
    DmSend "u1" (ConfirmationMessage "Learner" (Some ("g1"%string, "c1"%string)))]).
Proof. vm_compute. reflexivity. Qed.

(** An answer that fails its validator is answered with the error text of
    the question, and nothing changes. *)
Example messageCreate_invalid_answer_asks_again :
  messageCreate paid_platform jane_message
    (demo_world (jane_session "jane@scaler.com" true 1)) =
  (Ok tt, demo_world (jane_session "jane@scaler.com" true 1),
   [DmSend "u1" (ValidationErrorText EMAIL)]).
Proof. vm_compute. reflexivity. Qed.

(** A session kept after a failed finalization has its index past the last
    question: the next message throws inside [handleResponse] and is
    answered with the handler's failure text. *)
Example messageCreate_after_failed_finalization :
  messageCreate failing_sheet_platform jane_message (demo_world paid_session) =
  (Ok tt, demo_world paid_session, [DmSend "u1" HandlerFailureMessage]).
Proof. vm_compute. reflexivity. Qed.

(* ===================================================================== *)
(** * Part III: further properties of the code                            *)
(* ===================================================================== *)

(** ** More on the validators *)

Lemma in_range_spec lo hi c :
  in_range lo hi c = true <-> code lo <= c /\ c <= code hi.
Proof. unfold in_range. rewrite andb_true_iff, !N.leb_le. reflexivity. Qed.

Lemma one_of_spec cs c : one_of cs c = true <-> In c (js cs).
Proof.
  unfold one_of. rewrite existsb_exists. split.
  - intros (x & Hx & E). apply N.eqb_eq in E. subst. exact Hx.
  - intros H. exists c. split; [exact H | apply N.eqb_refl].
Qed.

Lemma is_letter_not_space c : is_letter c = true -> is_js_space c = false.
Proof.
  unfold is_letter. rewrite orb_true_iff, !in_range_spec. cbn.
  intros H. unfold is_js_space.
  repeat (apply orb_false_intro); try (apply N.eqb_neq; lia).
  apply andb_false_iff. left. apply N.leb_gt. lia.
Qed.

Lemma trimStart_spaces ws s :
  Forall (fun c => is_js_space c = true) ws -> trimStart (ws ++ s) = trimStart s.
Proof. induction 1 as [| c ws Hc _ IH]; [reflexivity |]. cbn. rewrite Hc. exact IH. Qed.

Lemma trimStart_nil_iff s :
  trimStart s = [] <-> Forall (fun c => is_js_space c = true) s.
Proof.
  induction s as [| c s IH]; cbn.
  - split; [constructor | reflexivity].
  - destruct (is_js_space c) eqn:Ec.
    + rewrite IH. split; [intros H; constructor; assumption |].
      intros H. apply Forall_cons in H as [_ H]. exact H.
    + split; [discriminate |]. intros H. apply Forall_cons in H as [H _]. congruence.
Qed.

Lemma trimStart_cons_app s c t u :
  trimStart s = c :: t -> trimStart (s ++ u) = c :: t ++ u.
Proof.
  induction s as [| d s IH]; cbn; [discriminate |].
  destruct (is_js_space d); [exact IH |]. intros [= -> ->]. reflexivity.
Qed.

Lemma trimStart_head s c t : trimStart s = c :: t -> is_js_space c = false.
Proof.
  induction s as [| d s IH]; cbn; [discriminate |].
  destruct (is_js_space d) eqn:Ed; [exact IH |]. intros [= -> _]. exact Ed.
Qed.

Lemma trimStart_fixed c t : is_js_space c = false -> trimStart (c :: t) = c :: t.
Proof. intros H. cbn. rewrite H. reflexivity. Qed.

Lemma trimEnd_spaces s ws :
  Forall (fun c => is_js_space c = true) ws -> trimEnd (s ++ ws) = trimEnd s.
Proof.
  intros H. unfold trimEnd. rewrite rev_app_distr, trimStart_spaces; [reflexivity |].
  apply List.Forall_rev, H.
Qed.

Lemma trimStart_snoc l c :
  is_js_space c = false -> exists l', trimStart (l ++ [c]) = l' ++ [c].
Proof.
  intros Hc. induction l as [| d l IH]; cbn.
  - rewrite Hc. exists []. reflexivity.
  - destruct (is_js_space d); [exact IH |]. exists (d :: l). reflexivity.
Qed.

Lemma trimEnd_cons c t :
  is_js_space c = false -> exists t', trimEnd (c :: t) = c :: t'.
Proof.
  intros Hc. unfold trimEnd. cbn [rev].
  destruct (trimStart_snoc (rev t) c Hc) as (l' & ->).
  rewrite rev_app_distr. cbn. eauto.
Qed.

Lemma trim_spaces ws1 s ws2 :
  Forall (fun c => is_js_space c = true) ws1 ->
  Forall (fun c => is_js_space c = true) ws2 ->
  trim (ws1 ++ s ++ ws2) = trim s.
Proof.
  intros H1 H2. unfold trim. rewrite (trimStart_spaces ws1 _ H1).
  destruct (trimStart s) as [| c t] eqn:Es.
  - apply trimStart_nil_iff in Es.
    assert (E : trimStart (s ++ ws2) = []).
    { apply trimStart_nil_iff. apply Forall_app. split; assumption. }
    rewrite E. reflexivity.
  - rewrite (trimStart_cons_app s c t ws2 Es).
    change (c :: t ++ ws2) with ((c :: t) ++ ws2). apply trimEnd_spaces, H2.
Qed.

Lemma trimStart_trimStart s : trimStart (trimStart s) = trimStart s.
Proof.
  destruct (trimStart s) as [| c t] eqn:Es; [reflexivity |].
  apply trimStart_fixed. eapply trimStart_head, Es.
Qed.

Lemma trimEnd_trimEnd s : trimEnd (trimEnd s) = trimEnd s.
Proof. unfold trimEnd. rewrite rev_involutive, trimStart_trimStart. reflexivity. Qed.

Lemma trim_trim s : trim (trim s) = trim s.
Proof.
  unfold trim. destruct (trimStart s) as [| c t] eqn:Es; [reflexivity |].
  destruct (trimEnd_cons c t (trimStart_head s c t Es)) as (t' & Et).
  rewrite Et, (trimStart_fixed c t' (trimStart_head s c t Es)), <- Et.
  apply trimEnd_trimEnd.
Qed.

Lemma trimStart_length s : (length (trimStart s) <= length s)%nat.
Proof.
  induction s as [| c s IH]; cbn; [lia |].
  destruct (is_js_space c); cbn; lia.
Qed.

Lemma trim_length s : (length (trim s) <= length s)%nat.
Proof.
  unfold trim, trimEnd. rewrite length_rev.
  pose proof (trimStart_length (rev (trimStart s))) as H1.
  rewrite length_rev in H1. pose proof (trimStart_length s). lia.
Qed.

Lemma trim_fixed s :
  (forall c, head s = Some c -> is_js_space c = false) ->
  (forall c, last s = Some c -> is_js_space c = false) ->
  trim s = s.
Proof.
  intros Hh Hl. unfold trim. destruct s as [| c t]; [reflexivity |].
  rewrite (trimStart_fixed c t (Hh c eq_refl)). unfold trimEnd.
  assert (Hne : c :: t <> []) by discriminate.
  destruct (exists_last Hne) as (u & d & E). rewrite E in *.
  rewrite rev_app_distr. cbn [rev app].
  rewrite trimStart_fixed; [| apply Hl, last_snoc].
  cbn [rev]. rewrite rev_involutive. reflexivity.
Qed.

Lemma replace_class_by_space_fixed cls s :
  Forall (fun c => cls c = false) s -> replace_class_by_space cls s = s.
Proof.
  unfold replace_class_by_space.
  induction 1 as [| c s Hc _ IH]; [reflexivity |].
  cbn [map]. rewrite Hc. f_equal. exact IH.
Qed.

(** X1. [sanitizeInput] never returns more code units than it is given,
    and returns its input unchanged when the input neither starts nor ends
    with white space, holds no carriage return, line feed or tab, and has
    at most 500 code units. *)
Theorem sanitizeInput_shorter_and_fixes_clean_input (s : jsstring) :
  (length (sanitizeInput s) <= length s)%nat /\
  ((forall c, head s = Some c -> is_js_space c = false) ->
   (forall c, last s = Some c -> is_js_space c = false) ->
   Forall (fun c => is_crlftab c = false) s ->
   (length s <= 500)%nat ->
   sanitizeInput s = s).
Proof.
  unfold sanitizeInput, substring0. split.
  - rewrite length_firstn. unfold replace_class_by_space. rewrite length_map.
    pose proof (trim_length s). lia.
  - intros Hh Hl Hc Hlen. rewrite (trim_fixed s Hh Hl).
    rewrite (replace_class_by_space_fixed _ _ Hc). apply firstn_all2. exact Hlen.
Qed.

Lemma sanitizeInput_shorter_and_fixes_clean_input_witness :
  (forall c, head (js "Jane Doe") = Some c -> is_js_space c = false) /\
  (forall c, last (js "Jane Doe") = Some c -> is_js_space c = false) /\
  Forall (fun c => is_crlftab c = false) (js "Jane Doe") /\
  (length (js "Jane Doe") <= 500)%nat /\
  sanitizeInput (js "Jane Doe") = js "Jane Doe".
Proof.
  assert (H1 : forall c, head (js "Jane Doe") = Some c -> is_js_space c = false)
    by (intros c [= <-]; reflexivity).
  assert (H2 : forall c, last (js "Jane Doe") = Some c -> is_js_space c = false)
    by (intros c [= <-]; reflexivity).
  assert (H3 : Forall (fun c => is_crlftab c = false) (js "Jane Doe"))
    by (repeat constructor).
  assert (H4 : (length (js "Jane Doe") <= 500)%nat) by (cbn; lia).
  split; [exact H1 |]. split; [exact H2 |]. split; [exact H3 |]. split; [exact H4 |].
  exact (proj2 (sanitizeInput_shorter_and_fixes_clean_input (js "Jane Doe")) H1 H2 H3 H4).
Defined.

(** X2. White space around a string changes neither the answer of
    [isValidEmail] nor that of [isValidName]: both validate the trimmed
    string. *)
Theorem validators_ignore_surrounding_space (ws1 s ws2 : jsstring) :
  Forall (fun c => is_js_space c = true) ws1 ->
  Forall (fun c => is_js_space c = true) ws2 ->
  isValidEmail (ws1 ++ s ++ ws2) = isValidEmail s /\
  isValidName (ws1 ++ s ++ ws2) = isValidName s.
Proof.
  intros H1 H2. unfold isValidEmail, isValidName. cbv zeta.
  rewrite (trim_spaces ws1 s ws2 H1 H2). split; reflexivity.
Qed.

Lemma validators_ignore_surrounding_space_witness :
  Forall (fun c => is_js_space c = true) (js "  ") /\
  Forall (fun c => is_js_space c = true) [9; 10] /\
  isValidEmail (js "  " ++ js "user@example.com" ++ [9; 10])
    = isValidEmail (js "user@example.com") /\
  isValidName (js "  " ++ js "user@example.com" ++ [9; 10])
    = isValidName (js "user@example.com").
Proof.
  assert (H1 : Forall (fun c => is_js_space c = true) (js "  ")) by (repeat constructor).
  assert (H2 : Forall (fun c => is_js_space c = true) [9; 10]) by (repeat constructor).
  split; [exact H1 |]. split; [exact H2 |].
  exact (validators_ignore_surrounding_space (js "  ") (js "user@example.com") [9; 10] H1 H2).
Defined.

Lemma is_alnum_printable c :
  is_alnum c = true -> 33 <= c <= 126 /\ c <> 64 /\ c <> 46.
Proof.
  unfold is_alnum, is_letter, is_digit.
  rewrite !orb_true_iff, !in_range_spec. cbn. lia.
Qed.

Lemma is_alnum_hyphen_printable c :
  is_alnum_hyphen c = true -> 33 <= c <= 126 /\ c <> 64 /\ c <> 46.
Proof.
  unfold is_alnum_hyphen. rewrite orb_true_iff, one_of_spec.
  intros [H | H]; [apply is_alnum_printable, H |].
  cbn in H. destruct H as [<- | []]. lia.
Qed.

Lemma is_local_printable c : is_local c = true -> 33 <= c <= 126 /\ c <> 64.
Proof.
  unfold is_local. rewrite orb_true_iff, one_of_spec.
  intros [H | H]; [apply is_alnum_printable in H; tauto |].
  cbn in H. repeat (destruct H as [<- | H]; [lia |]). destruct H.
Qed.

Lemma label_printable l :
  label_ok l -> Forall (fun c => 33 <= c <= 126 /\ c <> 64 /\ c <> 46) l.
Proof.
  intros (_ & H & _). eapply Forall_impl; [exact H |].
  intros c Hc. apply is_alnum_hyphen_printable, Hc.
Qed.

Lemma join_dots_printable labels :
  Forall label_ok labels ->
  Forall (fun c => 33 <= c <= 126 /\ c <> 64) (join_dots labels).
Proof.
  intros H. destruct H as [| l ls Hl Hls]; cbn [join_dots]; [constructor |].
  apply Forall_app. split.
  - eapply Forall_impl; [apply label_printable, Hl |]. cbn. tauto.
  - induction Hls as [| l' ls' Hl' _ IH]; cbn [map concat]; [constructor |].
    constructor; [cbn; lia |]. apply Forall_app. split; [| exact IH].
    eapply Forall_impl; [apply label_printable, Hl' |]. cbn. tauto.
Qed.

Lemma count_occ_absent (l : jsstring) x :
  Forall (fun c => c <> x) l -> count_occ N.eq_dec l x = 0%nat.
Proof.
  intros H. apply count_occ_not_In. intros Hin.
  rewrite List.Forall_forall in H. exact (H x Hin eq_refl).
Qed.

(** X3. An email [isValidEmail] accepts is, once trimmed, made of
    printable ASCII code units (33 to 126, so no space and no control
    character) and holds exactly one [@]. *)
Theorem valid_email_is_printable_with_one_at (s : jsstring) :
  isValidEmail s = true ->
  Forall (fun c => 33 <= c <= 126) (trim s) /\
  count_occ N.eq_dec (trim s) (code "@") = 1%nat.
Proof.
  intros H. apply isValidEmail_shape in H as (loc & labels & -> & _ & Hloc & _ & Hls).
  assert (Hl : Forall (fun c => 33 <= c <= 126 /\ c <> 64) loc).
  { eapply Forall_impl; [exact Hloc |]. intros c Hc. apply is_local_printable, Hc. }
  pose proof (join_dots_printable labels Hls) as Hd.
  split.
  - apply Forall_app. split; [eapply Forall_impl; [exact Hl |]; cbn; tauto |].
    constructor; [cbn; lia |]. eapply Forall_impl; [exact Hd |]. cbn. tauto.
  - rewrite count_occ_app. cbn [count_occ].
    destruct (N.eq_dec (code "@") (code "@")) as [_ | Hne]; [| contradiction].
    rewrite !count_occ_absent; [reflexivity | |].
    + eapply Forall_impl; [exact Hd |]. cbn. tauto.
    + eapply Forall_impl; [exact Hl |]. cbn. tauto.
Qed.

Lemma valid_email_is_printable_with_one_at_witness :
  isValidEmail (js " jane@scaler.com ") = true /\
  Forall (fun c => 33 <= c <= 126) (trim (js " jane@scaler.com ")) /\
  count_occ N.eq_dec (trim (js " jane@scaler.com ")) (code "@") = 1%nat.
Proof.
  assert (H : isValidEmail (js " jane@scaler.com ") = true) by (vm_compute; reflexivity).
  split; [exact H |].
  exact (valid_email_is_printable_with_one_at (js " jane@scaler.com ") H).
Defined.

Lemma existsb_trimStart s : existsb is_letter (trimStart s) = existsb is_letter s.
Proof.
  induction s as [| c s IH]; [reflexivity |]. cbn.
  destruct (is_js_space c) eqn:Ec; [| reflexivity].
  rewrite IH. destruct (is_letter c) eqn:El; [| reflexivity].
  apply is_letter_not_space in El. congruence.
Qed.

Lemma existsb_rev_eq (p : N -> bool) l : existsb p (rev l) = existsb p l.
Proof.
  induction l as [| c l IH]; [reflexivity |]. cbn [rev existsb].
  rewrite existsb_app, IH. cbn. rewrite orb_false_r. apply orb_comm.
Qed.

Lemma existsb_trim s : existsb is_letter (trim s) = existsb is_letter s.
Proof.
  unfold trim, trimEnd. rewrite existsb_rev_eq, existsb_trimStart, existsb_rev_eq.
  apply existsb_trimStart.
Qed.

(** X4. [isValidName] accepts a string exactly when its trimmed length is
    at least 2 and the string holds an ASCII letter; a string without any
    ASCII letter is refused whatever its length. *)
Theorem isValidName_iff (s : jsstring) :
  (isValidName s = true <->
   (2 <= length (trim s))%nat /\ exists c, In c s /\ is_letter c = true) /\
  (Forall (fun c => is_letter c = false) s -> isValidName s = false).
Proof.
  unfold isValidName, test_class. cbv zeta. rewrite existsb_trim. split.
  - rewrite andb_true_iff, Nat.leb_le, existsb_exists. reflexivity.
  - intros H. apply andb_false_iff. right.
    apply not_true_is_false. rewrite existsb_exists. intros (c & Hc & Hl).
    rewrite List.Forall_forall in H. rewrite (H c Hc) in Hl. discriminate.
Qed.

Lemma isValidName_iff_witness :
  Forall (fun c => is_letter c = false) (js "1234 5678") /\
  isValidName (js "1234 5678") = false /\
  isValidName (js "Jo") = true.
Proof.
  assert (H : Forall (fun c => is_letter c = false) (js "1234 5678"))
    by (repeat constructor).
  split; [exact H |].
  split; [exact (proj2 (isValidName_iff (js "1234 5678")) H) |].
  apply (proj1 (isValidName_iff (js "Jo"))). split; [vm_compute; lia |].
  exists (code "J"). split; [left; reflexivity | reflexivity].
Defined.

(** ** More on the allow-list lookup *)

Lemma learner_matches_malformed P e j :
  entry_malformed j = true -> learner_matches P e j = Throw TypeError.
Proof.
  unfold learner_matches, entry_malformed.
  destruct j as [| b | z | s | l | fs]; cbn; try discriminate; [reflexivity |].
  destruct (assoc "email" fs) as [[| b | z | s | l | fs'] |]; cbn;
    try discriminate; try (intros ->; reflexivity); reflexivity.
Qed.

Lemma learner_matches_well_formed P email j :
  entry_malformed j = false ->
  learner_matches P (trim (toLowerCase P email)) j = Ok (entry_matches P email j).
Proof.
  unfold learner_matches, entry_malformed, entry_matches, entry_email.
  destruct j as [| b | z | s | l | fs]; cbn; try discriminate; try reflexivity.
  destruct (assoc "email" fs) as [[| b | z | s | l | fs'] |]; cbn;
    try discriminate; try (intros ->; reflexivity); try reflexivity.
  intros _. destruct (Nat.eqb (length s) 0); reflexivity.
Qed.

Lemma array_find_well_formed P email entries :
  Forall (fun j => entry_malformed j = false) entries ->
  array_find (learner_matches P (trim (toLowerCase P email))) entries
    = Ok (find (entry_matches P email) entries).
Proof.
  induction 1 as [| j l Hj _ IH]; cbn [array_find find]; [reflexivity |].
  rewrite (learner_matches_well_formed P email j Hj).
  destruct (entry_matches P email j); [reflexivity | exact IH].
Qed.

Lemma array_find_skips P e l1 rest :
  Forall (fun j => learner_matches P e j = Ok false) l1 ->
  array_find (learner_matches P e) (l1 ++ rest) = array_find (learner_matches P e) rest.
Proof.
  induction 1 as [| j l Hj _ IH]; [reflexivity |].
  cbn [app array_find]. rewrite Hj. exact IH.
Qed.

(** X5. On a roster that is an array without a malformed entry,
    [verifyPaidLearner] answers with the first entry whose email is a
    non-empty string equal to the given email once both are lower-cased
    and trimmed, and copies that entry's name, email, program and batch;
    it answers "not verified" when there is none. *)
Theorem verifyPaidLearner_first_matching_entry P entries email :
  paidLearners_json P = FileJson (JArr entries) ->
  Forall (fun j => entry_malformed j = false) entries ->
  verifyPaidLearner P (Some email) =
    Ok (match find (entry_matches P email) entries with
        | Some learner => {| isVerified := true;
                             learnerData := Some (learnerData_of learner) |}
        | None => notVerified
        end).
Proof.
  intros Hfile Hwf. unfold verifyPaidLearner, verifyPaidLearner_try.
  rewrite Hfile, (array_find_well_formed P email entries Hwf).
  destruct (find (entry_matches P email) entries); reflexivity.
Qed.

Lemma verifyPaidLearner_first_matching_entry_witness :
  paidLearners_json upper_case_platform = FileJson (JArr upper_case_entries) /\
  Forall (fun j => entry_malformed j = false) upper_case_entries /\
  exists d,
    verifyPaidLearner upper_case_platform (Some (js "  JANE@scaler.COM"))
      = Ok {| isVerified := true; learnerData := Some d |} /\
    ld_name d = Some (JStr (js "Jane Doe")).
Proof.
  assert (H1 : paidLearners_json upper_case_platform
               = FileJson (JArr upper_case_entries)) by reflexivity.
  assert (H2 : Forall (fun j => entry_malformed j = false) upper_case_entries)
    by (repeat constructor).
  split; [exact H1 |]. split; [exact H2 |].
  eexists. split.
  - rewrite (verifyPaidLearner_first_matching_entry upper_case_platform
               upper_case_entries (js "  JANE@scaler.COM") H1 H2).
    vm_compute. reflexivity.
  - reflexivity.
Defined.

(** X6. A malformed entry ([null], or an email that is truthy and not a
    string) placed before any match makes [verifyPaidLearner] answer "not
    verified", whatever the entries after it hold: the exception of the
    callback ends the search and is caught. *)
Theorem verifyPaidLearner_malformed_entry_hides_the_rest P before bad rest email :
  paidLearners_json P = FileJson (JArr (before ++ bad :: rest)) ->
  Forall (fun j => entry_malformed j = false) before ->
  find (entry_matches P email) before = None ->
  entry_malformed bad = true ->
  verifyPaidLearner P (Some email) = Ok notVerified.
Proof.
  intros Hfile Hwf Hnone Hbad. unfold verifyPaidLearner, verifyPaidLearner_try.
  rewrite Hfile, array_find_skips.
  - cbn [array_find]. rewrite (learner_matches_malformed P _ bad Hbad). reflexivity.
  - clear Hfile. induction Hwf as [| j l Hj _ IH]; [constructor |].
    cbn [find] in Hnone. destruct (entry_matches P email j) eqn:Ej; [discriminate |].
    constructor; [| apply IH, Hnone].
    rewrite (learner_matches_well_formed P email j Hj), Ej. reflexivity.
Qed.

Lemma verifyPaidLearner_malformed_entry_hides_the_rest_witness :
  paidLearners_json null_entry_platform = FileJson (JArr ([] ++ JNull :: [jane_entry])) /\
  entry_malformed JNull = true /\
  entry_matches null_entry_platform (js "jane@scaler.com") jane_entry = true /\
  verifyPaidLearner null_entry_platform (Some (js "jane@scaler.com")) = Ok notVerified.
Proof.
  split; [reflexivity |]. split; [reflexivity |]. split; [vm_compute; reflexivity |].
  apply (verifyPaidLearner_malformed_entry_hides_the_rest null_entry_platform
           [] JNull [jane_entry] (js "jane@scaler.com"));
    [reflexivity | constructor | reflexivity | reflexivity].
Defined.

(** ** More on the finalization *)

(** X7. Whenever a run of [finalizeOnboarding] issues a role grant or a
    channel permission, the lookup had verified the email and the run had
    issued the append of the session's row, which resolved: nothing is
    granted without a persisted row. *)
Theorem finalize_grants_only_after_the_row P message session w :
  let '(_, _, cs) := finalizeOnboarding P message session w in
  forall c, In c cs -> is_grant c = true ->
    In (AppendToSheet (sheetData_of session)) cs /\
    resolves P (AppendToSheet (sheetData_of session)) = true /\
    exists v, verifyPaidLearner P (data session !! "email"%string) = Ok v /\
              isVerified v = true.
Proof.
  finalize_paths;
    intros call Hin Hgrant;
    repeat (destruct Hin as [<- | Hin]; [try discriminate Hgrant |]);
    try contradiction;
    (split; [in_calls | split; [assumption | eauto]]).
Qed.

Lemma finalize_grants_only_after_the_row_witness :
  In (RolesAdd "u1" {| role_id := "r1"; role_name := "Learner" |})
     (snd (finalizeOnboarding paid_platform jane_message paid_session
             (demo_world paid_session))) /\
  In (AppendToSheet (sheetData_of paid_session))
     (snd (finalizeOnboarding paid_platform jane_message paid_session
             (demo_world paid_session))) /\
  resolves paid_platform (AppendToSheet (sheetData_of paid_session)) = true.
Proof.
  assert (Hin : In (RolesAdd "u1" {| role_id := "r1"; role_name := "Learner" |})
                  (snd (finalizeOnboarding paid_platform jane_message paid_session
                          (demo_world paid_session))))
    by (vm_compute; tauto).
  split; [exact Hin |].
  pose proof (finalize_grants_only_after_the_row paid_platform jane_message
                paid_session (demo_world paid_session)) as H.
  destruct (finalizeOnboarding paid_platform jane_message paid_session
              (demo_world paid_session)) as [[r w'] cs].
  destruct (H _ Hin eq_refl) as (H1 & H2 & _). split; assumption.
Defined.

(** X8. A run of [finalizeOnboarding] appends at most one row, the row of
    the session, and appends none when it sends the rejection message. *)
Theorem finalize_one_row_at_most P message session w :
  let '(_, _, cs) := finalizeOnboarding P message session w in
  (appended_rows cs = [] \/ appended_rows cs = [sheetData_of session]) /\
  (In (DmSend (author_id message) RejectionMessage) cs -> appended_rows cs = []).
Proof.
  finalize_paths; cbn [appended_rows]; (split; [auto |]);
    intros Hin; try reflexivity;
    repeat (destruct Hin as [Hin | Hin]; [discriminate Hin |]); contradiction.
Qed.

Lemma finalize_one_row_at_most_witness :
  In (DmSend (author_id jane_message) RejectionMessage)
     (snd (finalizeOnboarding paid_platform jane_message unknown_session
             (demo_world unknown_session))) /\
  appended_rows (snd (finalizeOnboarding paid_platform jane_message unknown_session
                        (demo_world unknown_session))) = [].
Proof.
  assert (Hin : In (DmSend (author_id jane_message) RejectionMessage)
                  (snd (finalizeOnboarding paid_platform jane_message unknown_session
                          (demo_world unknown_session))))
    by (vm_compute; tauto).
  split; [exact Hin |].
  pose proof (finalize_one_row_at_most paid_platform jane_message unknown_session
                (demo_world unknown_session)) as H.
  destruct (finalizeOnboarding paid_platform jane_message unknown_session
              (demo_world unknown_session)) as [[r w'] cs].
  exact (proj2 H Hin).
Defined.

(** X9. When the role exists and its grant rejects, the row has already
    been appended: the run ends with the generic failure message, grants
    no channel, sends no confirmation and keeps both registries as they
    were. *)
Theorem finalize_role_rejection_after_the_row P message session w v guild member role :
  verifyPaidLearner P (data session !! "email"%string) = Ok v ->
  isVerified v = true ->
  resolves P (DmSend (author_id message) ProcessingNotice) = true ->
  resolves P (AppendToSheet (sheetData_of session)) = true ->
  client_guilds P !! guildId session = Some guild ->
  resolves P (MembersFetch (guildId session) (userId session)) = true ->
  fetched_member P (guildId session) (userId session) = Some member ->
  find (fun r => String.eqb (role_name r) (roleName_of P)) (guild_roles guild) = Some role ->
  resolves P (RolesAdd (member_id member) role) = false ->
  finalizeOnboarding P message session w =
    (Ok tt, w,
     [DmSend (author_id message) ProcessingNotice;
      AppendToSheet (sheetData_of session);
      MembersFetch (guildId session) (userId session);
      RolesAdd (member_id member) role;
      DmSend (author_id message) FinalizeFailureMessage]).
Proof.
  intros Hv Hverified Hnotice Happend Hguild Hfetch Hmember Hrole Hadd.
  finalize_paths; simplify_eq; try congruence; reflexivity.
Qed.

Lemma finalize_role_rejection_after_the_row_witness :
  resolves role_failing_platform (AppendToSheet (sheetData_of paid_session)) = true /\
  resolves role_failing_platform (RolesAdd (member_id jane_as_member) learner_role) = false /\
  finalizeOnboarding role_failing_platform jane_message paid_session
      (demo_world paid_session) =
    (Ok tt, demo_world paid_session,
     [DmSend (author_id jane_message) ProcessingNotice;
      AppendToSheet (sheetData_of paid_session);
      MembersFetch (guildId paid_session) (userId paid_session);
      RolesAdd (member_id jane_as_member) learner_role;
      DmSend (author_id jane_message) FinalizeFailureMessage]).
Proof.
  split; [reflexivity |]. split; [reflexivity |].
  eapply (finalize_role_rejection_after_the_row role_failing_platform jane_message
            paid_session (demo_world paid_session) _ demo_guild jane_as_member
            learner_role);
    vm_compute; reflexivity.
Defined.

(** X10. The steps after the member fetch that can fail without ending
    the run: with a verified email, the notice, the append, the member
    fetch, any role grant and the confirmation resolving, and the guild
    and the member found, the run removes the session and ends with the
    confirmation, whether or not the role exists, the channel exists, the
    permission is created or the public welcome is sent. *)
Theorem finalize_best_effort_steps P message session w v guild member :
  verifyPaidLearner P (data session !! "email"%string) = Ok v ->
  isVerified v = true ->
  resolves P (DmSend (author_id message) ProcessingNotice) = true ->
  resolves P (AppendToSheet (sheetData_of session)) = true ->
  client_guilds P !! guildId session = Some guild ->
  resolves P (MembersFetch (guildId session) (userId session)) = true ->
  fetched_member P (guildId session) (userId session) = Some member ->
  (forall role, resolves P (RolesAdd (member_id member) role) = true) ->
  resolves P (DmSend (author_id message)
                (ConfirmationMessage (roleName_of P) (channel_link session))) = true ->
  let '(r, w', cs) := finalizeOnboarding P message session w in
  r = Ok tt /\ w' = session_removed session w /\
  last cs = Some (DmSend (author_id message)
                    (ConfirmationMessage (roleName_of P) (channel_link session))) /\
  ~ In (DmSend (author_id message) FinalizeFailureMessage) cs.
Proof.
  intros Hv Hverified Hnotice Happend Hguild Hfetch Hmember Hroles Hconfirm.
  finalize_paths; simplify_eq; try congruence;
    try (rewrite Hroles in *; discriminate);
    (split; [reflexivity |]); (split; [reflexivity |]);
    (split; [reflexivity | not_in_calls]).
Qed.

Lemma finalize_best_effort_steps_witness :
  resolves grant_failing_platform (PermissionOverwritesCreate "c1" "u1") = false /\
  (forall role, resolves grant_failing_platform
                  (RolesAdd (member_id jane_as_member) role) = true) /\
  snd (fst (finalizeOnboarding grant_failing_platform jane_message paid_session
              (demo_world paid_session)))
    = session_removed paid_session (demo_world paid_session).
Proof.
  assert (Hroles : forall role, resolves grant_failing_platform
                                  (RolesAdd (member_id jane_as_member) role) = true)
    by reflexivity.
  split; [reflexivity |]. split; [exact Hroles |].
  assert (Hv : exists v, verifyPaidLearner grant_failing_platform
                           (data paid_session !! "email"%string) = Ok v /\
                         isVerified v = true)
    by (eexists; split; [vm_compute; reflexivity | reflexivity]).
  destruct Hv as (v & Hv & Hverified).
  pose proof (finalize_best_effort_steps grant_failing_platform jane_message
                paid_session (demo_world paid_session) v demo_guild jane_as_member
                Hv Hverified eq_refl eq_refl) as H.
  assert (Hguild : client_guilds grant_failing_platform !! guildId paid_session
                   = Some demo_guild) by (vm_compute; reflexivity).
  specialize (H Hguild eq_refl eq_refl Hroles eq_refl).
  destruct (finalizeOnboarding grant_failing_platform jane_message paid_session
              (demo_world paid_session)) as [[r w'] cs].
  destruct H as (_ & -> & _). reflexivity.
Defined.

(** X11. [finalizeOnboarding] always returns, never changes the invite
    cache and never touches the session of another user. *)
Theorem finalize_frame P message session w :
  let '(r, w', _) := finalizeOnboarding P message session w in
  r = Ok tt /\ invites w' = invites w /\
  forall k, k <> userId session ->
            onboardingSessions w' !! k = onboardingSessions w !! k.
Proof.
  finalize_paths; (split; [reflexivity |]); (split; [reflexivity |]);
    intros k Hk; try reflexivity; cbn; apply lookup_delete_ne; congruence.
Qed.

Lemma finalize_frame_witness :
  "u2"%string <> userId paid_session /\
  onboardingSessions
    (snd (fst (finalizeOnboarding paid_platform jane_message paid_session
                 two_sessions_world))) !! "u2"%string
  = Some other_session.
Proof.
  assert (Hne : "u2"%string <> userId paid_session) by discriminate.
  split; [exact Hne |].
  pose proof (finalize_frame paid_platform jane_message paid_session
                two_sessions_world) as H.
  destruct (finalizeOnboarding paid_platform jane_message paid_session
              two_sessions_world) as [[r w'] cs].
  destruct H as (_ & _ & H). cbn [fst snd].
  rewrite (H "u2"%string Hne). vm_compute. reflexivity.
Defined.

(** ** The question flow *)

Lemma bind_ret_run {A} (m : M A) (w : World) :
  (let '(r, w2, cs2) := m w in (r, w2, [] ++ cs2)) = m w.
Proof. destruct (m w) as [[r w2] cs2]. reflexivity. Qed.

(** The four ways [handleResponse] runs. *)
Lemma handleResponse_cases P message session w :
  (nth_error QUESTION_ORDER (currentStep session) = None /\
   handleResponse P message session w = (Throw TypeError, w, [])) \/
  (exists k, nth_error QUESTION_ORDER (currentStep session) = Some k /\
     validator (QUESTIONS k) (sanitizeInput (content message)) = false /\
     handleResponse P message session w =
       await P (DmSend (author_id message) (errorMessage (QUESTIONS k))) w) \/
  (exists k k', nth_error QUESTION_ORDER (currentStep session) = Some k /\
     validator (QUESTIONS k) (sanitizeInput (content message)) = true /\
     nth_error QUESTION_ORDER (S (currentStep session)) = Some k' /\
     handleResponse P message session w =
       await P (DmSend (author_id message) (question (QUESTIONS k')))
         (session_stored (author_id message)
            (with_answer session (key (QUESTIONS k)) (sanitizeInput (content message))) w)) \/
  (exists k, nth_error QUESTION_ORDER (currentStep session) = Some k /\
     validator (QUESTIONS k) (sanitizeInput (content message)) = true /\
     S (currentStep session) = length QUESTION_ORDER /\
     handleResponse P message session w =
       finalizeOnboarding P message
         (with_answer session (key (QUESTIONS k)) (sanitizeInput (content message)))
         (session_stored (author_id message)
            (with_answer session (key (QUESTIONS k)) (sanitizeInput (content message))) w)).
Proof.
  unfold handleResponse.
  destruct (nth_error QUESTION_ORDER (currentStep session)) as [k |] eqn:Ek.
  2: { left. split; reflexivity. }
  right. run.
  destruct (validator (QUESTIONS k) (sanitizeInput (content message))) eqn:Ev;
    cbn [negb]; run.
  2: { left. exists k. repeat split; assumption. }
  right.
  assert (Hlt : (currentStep session < length QUESTION_ORDER)%nat).
  { apply (proj1 (nth_error_Some QUESTION_ORDER (currentStep session))).
    rewrite Ek. discriminate. }
  unfold bind, sessions_set. run. cbn [currentStep].
  destruct (S (currentStep session) <? length QUESTION_ORDER)%nat eqn:El.
  - apply Nat.ltb_lt in El. left.
    destruct (nth_error QUESTION_ORDER (S (currentStep session))) as [k' |] eqn:Ek'.
    + exists k, k'. repeat split; assumption.
    + apply nth_error_None in Ek'. lia.
  - apply Nat.ltb_ge in El. right. exists k.
    split; [reflexivity |]. split; [exact Ev |]. split; [cbn in *; lia |].
    apply bind_ret_run.
Qed.

Lemma finalizeOnboarding_outcome P message session w :
  let '(r, w', cs) := finalizeOnboarding P message session w in
  r = Ok tt /\
  (w' = w \/ w' = session_removed session w) /\
  (appended_rows cs = [] \/ appended_rows cs = [sheetData_of session]).
Proof.
  finalize_paths; cbn [appended_rows]; auto.
Qed.

(** What the handler of [messageCreate] makes of a run of [handleResponse]. *)
Lemma messageCreate_catch P message (m : M unit) w :
  try_catch m
    (fun _ => try_catch (await P (DmSend (author_id message) HandlerFailureMessage))
                        (fun _ => ret tt)) w =
  match m w with
  | (Ok a, w1, cs) => (Ok a, w1, cs)
  | (Throw _, w1, cs) =>
      (Ok tt, w1, cs ++ [DmSend (author_id message) HandlerFailureMessage])
  end.
Proof.
  unfold try_catch, await, ret. destruct (m w) as [[[a | e] w1] cs]; [reflexivity |].
  destruct (resolves P _); reflexivity.
Qed.

Lemma messageCreate_started P message w session :
  author_bot message = false -> in_guild message = false ->
  onboardingSessions w !! author_id message = Some session ->
  started session = true ->
  messageCreate P message w =
  match handleResponse P message session w with
  | (Ok a, w1, cs) => (Ok a, w1, cs)
  | (Throw _, w1, cs) =>
      (Ok tt, w1, cs ++ [DmSend (author_id message) HandlerFailureMessage])
  end.
Proof.
  intros Hbot Hguild Hs Hstarted. unfold messageCreate, bind, get_world.
  rewrite Hbot, Hguild. cbn [orb]. run. rewrite Hs, Hstarted. cbn [negb]. run.
  rewrite messageCreate_catch.
  destruct (handleResponse P message session w) as [[[a | e] w1] cs]; reflexivity.
Qed.

Lemma messageCreate_idle P message w :
  author_bot message = true \/ in_guild message = true \/
  onboardingSessions w !! author_id message = None \/
  (exists session, onboardingSessions w !! author_id message = Some session /\
                   started session = false) ->
  messageCreate P message w = (Ok tt, w, []).
Proof.
  intros H. unfold messageCreate, bind, get_world, ret.
  destruct (author_bot message); [reflexivity |].
  destruct (in_guild message); [reflexivity |]. cbn [orb]. run.
  destruct H as [H | [H | [H | (s & H & Hs)]]]; try discriminate.
  - rewrite H. reflexivity.
  - rewrite H, Hs. reflexivity.
Qed.

(** X12. A started session whose current question refuses the sanitized
    message: the handler answers with the error text of that question and
    leaves both registries as they were, so the index and the answers do
    not change and the question can be answered again; when that answer
    cannot be sent, the handler's failure text is sent after it. *)
Theorem messageCreate_invalid_answer P message w session k :
  author_bot message = false -> in_guild message = false ->
  onboardingSessions w !! author_id message = Some session ->
  started session = true ->
  nth_error QUESTION_ORDER (currentStep session) = Some k ->
  validator (QUESTIONS k) (sanitizeInput (content message)) = false ->
  messageCreate P message w =
    (Ok tt, w,
     DmSend (author_id message) (errorMessage (QUESTIONS k)) ::
     (if resolves P (DmSend (author_id message) (errorMessage (QUESTIONS k)))
      then [] else [DmSend (author_id message) HandlerFailureMessage])).
Proof.
  intros Hbot Hguild Hs Hstarted Hk Hv.
  rewrite (messageCreate_started P message w session Hbot Hguild Hs Hstarted).
  destruct (handleResponse_cases P message session w)
    as [[E _] | [(k1 & E & Hv1 & ->) | [(k1 & k' & E & Hv1 & _) | (k1 & E & Hv1 & _)]]];
    try congruence.
  assert (k1 = k) as -> by congruence.
  unfold await. destruct (resolves P _); reflexivity.
Qed.

Lemma messageCreate_invalid_answer_witness :
  onboardingSessions (demo_world (jane_session "jane@scaler.com" true 1))
    !! author_id jane_message = Some (jane_session "jane@scaler.com" true 1) /\
  validator (QUESTIONS EMAIL) (sanitizeInput (content jane_message)) = false /\
  messageCreate paid_platform jane_message
      (demo_world (jane_session "jane@scaler.com" true 1)) =
    (Ok tt, demo_world (jane_session "jane@scaler.com" true 1),
     [DmSend (author_id jane_message) (errorMessage (QUESTIONS EMAIL))]).
Proof.
  assert (Hs : onboardingSessions (demo_world (jane_session "jane@scaler.com" true 1))
                 !! author_id jane_message = Some (jane_session "jane@scaler.com" true 1))
    by (vm_compute; reflexivity).
  assert (Hv : validator (QUESTIONS EMAIL) (sanitizeInput (content jane_message)) = false)
    by (vm_compute; reflexivity).
  split; [exact Hs |]. split; [exact Hv |].
  exact (messageCreate_invalid_answer paid_platform jane_message _ _ EMAIL
           eq_refl eq_refl Hs eq_refl eq_refl Hv).
Defined.

(** X13. A started session whose current question accepts the sanitized
    message: the sanitized text is stored under the key of the question
    and the index advances by one, whether or not the next message can be
    sent; then the next question is sent, or, after the last question,
    the finalization runs on the completed session. *)
Theorem messageCreate_accepted_answer P message w session k :
  author_bot message = false -> in_guild message = false ->
  onboardingSessions w !! author_id message = Some session ->
  started session = true ->
  nth_error QUESTION_ORDER (currentStep session) = Some k ->
  validator (QUESTIONS k) (sanitizeInput (content message)) = true ->
  let session' :=
    with_answer session (key (QUESTIONS k)) (sanitizeInput (content message)) in
  let w1 := session_stored (author_id message) session' w in
  match nth_error QUESTION_ORDER (S (currentStep session)) with
  | Some k' =>
      messageCreate P message w =
        (Ok tt, w1,
         DmSend (author_id message) (question (QUESTIONS k')) ::
         (if resolves P (DmSend (author_id message) (question (QUESTIONS k')))
          then [] else [DmSend (author_id message) HandlerFailureMessage]))
  | None => messageCreate P message w = finalizeOnboarding P message session' w1
  end.
Proof.
  intros Hbot Hguild Hs Hstarted Hk Hv. cbv zeta.
  rewrite (messageCreate_started P message w session Hbot Hguild Hs Hstarted).
  destruct (handleResponse_cases P message session w)
    as [[E _] | [(k1 & E & Hv1 & _) | [(k1 & k' & E & Hv1 & Ek' & ->) | (k1 & E & Hv1 & El & ->)]]];
    try congruence.
  - assert (k1 = k) as -> by congruence. rewrite Ek'.
    unfold await. destruct (resolves P _); reflexivity.
  - assert (k1 = k) as -> by congruence.
    assert (Enone : nth_error QUESTION_ORDER (S (currentStep session)) = None).
    { apply nth_error_None. lia. }
    rewrite Enone.
    pose proof (finalizeOnboarding_outcome P message
                  (with_answer session (key (QUESTIONS k)) (sanitizeInput (content message)))
                  (session_stored (author_id message)
                     (with_answer session (key (QUESTIONS k))
                        (sanitizeInput (content message))) w)) as H.
    destruct (finalizeOnboarding _ _ _ _) as [[r w2] cs]. destruct H as (-> & _).
    reflexivity.
Qed.

Lemma messageCreate_accepted_answer_witness :
  onboardingSessions (demo_world (jane_session "" true 0)) !! "u1"%string
    = Some (jane_session "" true 0) /\
  validator (QUESTIONS NAME) (sanitizeInput (js "Jane Doe")) = true /\
  messageCreate paid_platform (direct_message "u1" (js "Jane Doe"))
      (demo_world (jane_session "" true 0)) =
    (Ok tt,
     session_stored "u1"
       (with_answer (jane_session "" true 0) "name" (sanitizeInput (js "Jane Doe")))
       (demo_world (jane_session "" true 0)),
     [DmSend "u1" (QuestionText EMAIL)]).
Proof.
  assert (Hs : onboardingSessions (demo_world (jane_session "" true 0))
                 !! author_id (direct_message "u1" (js "Jane Doe"))
               = Some (jane_session "" true 0))
    by (vm_compute; reflexivity).
  assert (Hv : validator (QUESTIONS NAME)
                 (sanitizeInput (content (direct_message "u1" (js "Jane Doe")))) = true)
    by (vm_compute; reflexivity).
  split; [exact Hs |]. split; [exact Hv |].
  exact (messageCreate_accepted_answer paid_platform
           (direct_message "u1" (js "Jane Doe")) _ _ NAME
           eq_refl eq_refl Hs eq_refl eq_refl Hv).
Defined.

(** X14. A started session whose index is past the last question (one
    kept by a failed finalization) is never processed again: every later
    message of its user throws inside [handleResponse] and is answered
    with the handler's failure text, the registries unchanged. *)
Theorem messageCreate_exhausted_session P message w session :
  author_bot message = false -> in_guild message = false ->
  onboardingSessions w !! author_id message = Some session ->
  started session = true ->
  (length QUESTION_ORDER <= currentStep session)%nat ->
  messageCreate P message w =
    (Ok tt, w, [DmSend (author_id message) HandlerFailureMessage]).
Proof.
  intros Hbot Hguild Hs Hstarted Hstep.
  rewrite (messageCreate_started P message w session Hbot Hguild Hs Hstarted).
  assert (Enone : nth_error QUESTION_ORDER (currentStep session) = None)
    by (apply nth_error_None; exact Hstep).
  destruct (handleResponse_cases P message session w)
    as [[_ ->] | [(k1 & E & _) | [(k1 & k' & E & _) | (k1 & E & _)]]];
    try congruence.
  reflexivity.
Qed.

Lemma messageCreate_exhausted_session_witness :
  (length QUESTION_ORDER <= currentStep paid_session)%nat /\
  messageCreate failing_sheet_platform jane_message (demo_world paid_session) =
    (Ok tt, demo_world paid_session,
     [DmSend (author_id jane_message) HandlerFailureMessage]).
Proof.
  assert (Hstep : (length QUESTION_ORDER <= currentStep paid_session)%nat)
    by (cbn; lia).
  assert (Hs : onboardingSessions (demo_world paid_session) !! author_id jane_message
               = Some paid_session) by (vm_compute; reflexivity).
  split; [exact Hstep |].
  exact (messageCreate_exhausted_session failing_sheet_platform jane_message _ _
           eq_refl eq_refl Hs eq_refl Hstep).
Defined.

(** Every run of [messageCreate] returns; it either leaves the world as it
    was, or stores an accepted answer in the author's session and then
    possibly finalizes it. *)
Lemma messageCreate_cases P message w :
  exists w' cs,
    messageCreate P message w = (Ok tt, w', cs) /\
    ((w' = w /\ appended_rows cs = []) \/
     exists session k,
       onboardingSessions w !! author_id message = Some session /\
       nth_error QUESTION_ORDER (currentStep session) = Some k /\
       validator (QUESTIONS k) (sanitizeInput (content message)) = true /\
       let session' :=
         with_answer session (key (QUESTIONS k)) (sanitizeInput (content message)) in
       let w1 := session_stored (author_id message) session' w in
       (w' = w1 \/ w' = session_removed session' w1) /\
       (appended_rows cs = [] \/
        (appended_rows cs = [sheetData_of session'] /\
         S (currentStep session) = length QUESTION_ORDER))).
Proof.
  destruct (author_bot message) eqn:Hbot.
  { exists w, []. rewrite messageCreate_idle; auto. }
  destruct (in_guild message) eqn:Hguild.
  { exists w, []. rewrite messageCreate_idle; auto. }
  destruct (onboardingSessions w !! author_id message) as [session |] eqn:Hs.
  2: { exists w, []. rewrite messageCreate_idle; auto. }
  destruct (started session) eqn:Hstarted.
  2: { exists w, []. rewrite messageCreate_idle; eauto 6. }
  rewrite (messageCreate_started P message w session Hbot Hguild Hs Hstarted).
  destruct (handleResponse_cases P message session w)
    as [[_ ->] | [(k & E & Hv & ->) | [(k & k' & E & Hv & Ek' & ->) | (k & E & Hv & El & ->)]]].
  - eexists _, _. split; [reflexivity |]. left. auto.
  - unfold await. destruct (resolves P _); eexists _, _;
      (split; [reflexivity |]); left; auto.
  - unfold await. destruct (resolves P _); eexists _, _;
      (split; [reflexivity |]); right; exists session, k;
      (split; [reflexivity |]); (split; [exact E |]); (split; [exact Hv |]);
      cbv zeta; auto.
  - pose proof (finalizeOnboarding_outcome P message
                  (with_answer session (key (QUESTIONS k)) (sanitizeInput (content message)))
                  (session_stored (author_id message)
                     (with_answer session (key (QUESTIONS k))
                        (sanitizeInput (content message))) w)) as H.
    destruct (finalizeOnboarding _ _ _ _) as [[r w2] cs].
    destruct H as (-> & Hw & Hrows).
    exists w2, cs. split; [reflexivity |]. right. exists session, k.
    split; [reflexivity |]. split; [exact E |]. split; [exact Hv |].
    cbv zeta. split; [exact Hw |].
    destruct Hrows as [-> | ->]; auto.
Qed.

(** X15. [messageCreate] always returns and never throws, never changes
    the invite cache and never creates a session; a session it keeps has
    the same user, guild, channel and started flag, its index unchanged
    or advanced by one, and is unchanged when it is not the author's. *)
Theorem messageCreate_frame P message w :
  let '(r, w', _) := messageCreate P message w in
  r = Ok tt /\ invites w' = invites w /\
  forall u,
    match onboardingSessions w !! u with
    | None => onboardingSessions w' !! u = None
    | Some s =>
        onboardingSessions w' !! u = None \/
        exists s', onboardingSessions w' !! u = Some s' /\
                   userId s' = userId s /\ guildId s' = guildId s /\
                   channelId s' = channelId s /\ started s' = started s /\
                   (currentStep s <= currentStep s' <= S (currentStep s))%nat /\
                   (u <> author_id message -> s' = s)
    end.
Proof.
  destruct (messageCreate_cases P message w) as (w' & cs & -> & H).
  split; [reflexivity |].
  destruct H as [[-> _] | (session & k & Hs & _ & _ & H)].
  - split; [reflexivity |]. intros u.
    destruct (onboardingSessions w !! u) as [s |] eqn:Hu; [| reflexivity].
    right. exists s. repeat split; auto; lia.
  - cbv zeta in H. destruct H as [Hw _].
    assert (Hstored : forall u,
              match onboardingSessions w !! u with
              | None => <[author_id message :=
                            with_answer session (key (QUESTIONS k))
                              (sanitizeInput (content message))]>
                          (onboardingSessions w) !! u = None
              | Some s =>
                  exists s', <[author_id message :=
                                 with_answer session (key (QUESTIONS k))
                                   (sanitizeInput (content message))]>
                               (onboardingSessions w) !! u = Some s' /\
                             userId s' = userId s /\ guildId s' = guildId s /\
                             channelId s' = channelId s /\ started s' = started s /\
                             (currentStep s <= currentStep s' <= S (currentStep s))%nat /\
                             (u <> author_id message -> s' = s)
              end).
    { intros u. destruct (decide (author_id message = u)) as [<- | Hne].
      - rewrite Hs, lookup_insert_eq. eexists. split; [reflexivity |].
        cbn. repeat split; auto; try lia. intros Hc. contradiction.
      - rewrite lookup_insert_ne by exact Hne.
        destruct (onboardingSessions w !! u) as [s |]; [| reflexivity].
        exists s. repeat split; auto; lia. }
    destruct Hw as [-> | ->]; (split; [reflexivity |]); intros u;
      specialize (Hstored u); cbn [session_stored session_removed onboardingSessions].
    + destruct (onboardingSessions w !! u); [right |]; exact Hstored.
    + cbn [userId with_answer].
      destruct (decide (userId session = u)) as [<- | Hne].
      * rewrite lookup_delete_eq. clear Hstored.
        destruct (onboardingSessions w !! userId session); [left |]; reflexivity.
      * rewrite lookup_delete_ne by exact Hne.
        destruct (onboardingSessions w !! u); [right |]; exact Hstored.
Qed.

Lemma messageCreate_frame_witness :
  "u2"%string <> author_id jane_message /\
  onboardingSessions two_sessions_world !! "u2"%string = Some other_session /\
  (onboardingSessions
     (snd (fst (messageCreate paid_platform jane_message two_sessions_world)))
     !! "u2"%string = None \/
   onboardingSessions
     (snd (fst (messageCreate paid_platform jane_message two_sessions_world)))
     !! "u2"%string = Some other_session).
Proof.
  assert (Hne : "u2"%string <> author_id jane_message) by discriminate.
  assert (Hs : onboardingSessions two_sessions_world !! "u2"%string = Some other_session)
    by (vm_compute; reflexivity).
  split; [exact Hne |]. split; [exact Hs |].
  pose proof (messageCreate_frame paid_platform jane_message two_sessions_world) as H.
  destruct (messageCreate paid_platform jane_message two_sessions_world) as [[r w'] cs].
  destruct H as (_ & _ & H). specialize (H "u2"%string). rewrite Hs in H.
  cbn [fst snd].
  destruct H as [H | (s' & H & _ & _ & _ & _ & _ & Hsame)]; [left; exact H |].
  right. rewrite <- (Hsame Hne). exact H.
Defined.

Lemma sanitizeInput_length s : (length (sanitizeInput s) <= 500)%nat.
Proof. unfold sanitizeInput, substring0. rewrite length_firstn. lia. Qed.

Lemma question_keys_distinct i j k k' :
  nth_error QUESTION_ORDER i = Some k ->
  nth_error QUESTION_ORDER j = Some k' ->
  i <> j -> key (QUESTIONS k) <> key (QUESTIONS k').
Proof.
  intros Hi Hj Hne.
  destruct i as [| [| [| i]]]; destruct j as [| [| [| j]]]; cbn in Hi, Hj;
    try (destruct i; discriminate); try (destruct j; discriminate);
    try congruence; injection Hi as <-; injection Hj as <-; discriminate.
Qed.

Lemma with_answer_wf session k v :
  session_wf session ->
  nth_error QUESTION_ORDER (currentStep session) = Some k ->
  validator (QUESTIONS k) v = true -> (length v <= 500)%nat ->
  session_wf (with_answer session (key (QUESTIONS k)) v).
Proof.
  intros [Hstep Hans] Hk Hv Hlen. split; cbn [currentStep with_answer].
  - apply (proj1 (nth_error_Some QUESTION_ORDER (currentStep session))).
    rewrite Hk. discriminate.
  - intros j k' Hj Hk'. unfold answered. cbn [data with_answer].
    destruct (decide (j = currentStep session)) as [-> | Hne].
    + assert (k' = k) as -> by congruence.
      exists v. rewrite lookup_insert_eq. auto.
    + destruct (Hans j k') as (v' & Hd & Hv' & Hl'); [lia | exact Hk' |].
      exists v'. rewrite lookup_insert_ne; [auto |].
      apply (question_keys_distinct (currentStep session) j k k'); auto.
Qed.

Lemma complete_session_row session :
  session_wf session -> currentStep session = length QUESTION_ORDER ->
  row_complete (sheetData_of session).
Proof.
  intros [_ Hans] Hstep. rewrite Hstep in Hans. unfold row_complete, sheetData_of. cbn.
  destruct (Hans 0%nat NAME) as (n & Hn & Hvn & _); [cbn; lia | reflexivity |].
  destruct (Hans 1%nat EMAIL) as (e & He & Hve & _); [cbn; lia | reflexivity |].
  destruct (Hans 2%nat PHONE) as (p & Hp & Hvp & _); [cbn; lia | reflexivity |].
  cbn in *. eauto 10.
Qed.

(** X16. When every session of the registry is kept under its own user
    id, has its index within the question list and holds a valid answer
    of at most 500 code units for every question before its index, this
    still holds after [messageCreate], and every row the run appends
    carries a valid name, a valid email and a valid phone number. *)
Theorem messageCreate_keeps_registry_well_formed P message w :
  registry_wf w ->
  let '(_, w', cs) := messageCreate P message w in
  registry_wf w' /\ Forall row_complete (appended_rows cs).
Proof.
  intros Hwf. destruct (messageCreate_cases P message w) as (w' & cs & -> & H).
  destruct H as [[-> ->] | (session & k & Hs & Hk & Hv & H)].
  { split; [exact Hwf | constructor]. }
  cbv zeta in H. destruct H as [Hw Hrows].
  destruct (Hwf _ _ Hs) as [Hid Hswf].
  pose proof (with_answer_wf session k (sanitizeInput (content message)) Hswf Hk Hv
                (sanitizeInput_length _)) as Hwf'.
  assert (Hstored : registry_wf
            (session_stored (author_id message)
               (with_answer session (key (QUESTIONS k)) (sanitizeInput (content message))) w)).
  { intros u s. cbn [session_stored onboardingSessions].
    destruct (decide (author_id message = u)) as [<- | Hne].
    - rewrite lookup_insert_eq. intros [= <-]. split; [exact Hid | exact Hwf'].
    - rewrite lookup_insert_ne by exact Hne. apply Hwf. }
  split.
  - destruct Hw as [-> | ->]; [exact Hstored |].
    intros u s. cbn [session_removed onboardingSessions].
    destruct (decide (userId (with_answer session (key (QUESTIONS k))
                                (sanitizeInput (content message))) = u)) as [<- | Hne].
    + rewrite lookup_delete_eq. discriminate.
    + rewrite lookup_delete_ne by exact Hne. apply Hstored.
  - destruct Hrows as [-> | [-> Hlast]]; [constructor |].
    constructor; [| constructor]. apply complete_session_row; [exact Hwf' |].
    exact Hlast.
Qed.

Lemma messageCreate_keeps_registry_well_formed_witness :
  registry_wf (demo_world (jane_session "jane@scaler.com" true 2)) /\
  Forall row_complete
    (appended_rows
       (snd (messageCreate paid_platform jane_message
               (demo_world (jane_session "jane@scaler.com" true 2))))).
Proof.
  assert (Hwf : registry_wf (demo_world (jane_session "jane@scaler.com" true 2))).
  { intros u s Hu. cbn [demo_world onboardingSessions] in Hu.
    apply lookup_singleton_Some in Hu as [<- <-].
    split; [reflexivity |]. split; [cbn; lia |].
    intros i k Hi Hk. cbn [currentStep jane_session] in Hi.
    destruct i as [| [| i]]; [| | lia]; cbn in Hk; injection Hk as <-;
      eexists; (split; [vm_compute; reflexivity |]);
      (split; [vm_compute; reflexivity | vm_compute; lia]). }
  split; [exact Hwf |].
  pose proof (messageCreate_keeps_registry_well_formed paid_platform jane_message
                (demo_world (jane_session "jane@scaler.com" true 2)) Hwf) as H.
  destruct (messageCreate paid_platform jane_message
              (demo_world (jane_session "jane@scaler.com" true 2))) as [[r w'] cs].
  exact (proj2 H).
Defined.

(** ** More on the invite tracker *)

Lemma collection_of_invites_snoc l i :
  collection_of_invites (l ++ [i]) =
  <[inv_code i := inv_uses i]> (collection_of_invites l).
Proof. unfold collection_of_invites. rewrite fold_left_app. reflexivity. Qed.

Lemma collection_of_invites_absent l c :
  ~ In c (map inv_code l) -> collection_of_invites l !! c = None.
Proof.
  induction l as [| i l IH] using rev_ind; intros Hc.
  - apply lookup_empty.
  - rewrite collection_of_invites_snoc. rewrite map_app, in_app_iff in Hc. cbn in Hc.
    rewrite lookup_insert_ne by tauto. apply IH. tauto.
Qed.

Lemma collection_of_invites_present l i :
  NoDup (map inv_code l) -> In i l ->
  collection_of_invites l !! inv_code i = Some (inv_uses i).
Proof.
  induction l as [| x l IH] using rev_ind; intros Hnd Hin; [destruct Hin |].
  rewrite collection_of_invites_snoc.
  rewrite map_app in Hnd. cbn in Hnd.
  apply NoDup_app in Hnd as (Hnd & Hx & _).
  apply in_app_or in Hin as [Hin | [<- | []]].
  - rewrite lookup_insert_ne; [apply IH; assumption |].
    intros E. apply (Hx (inv_code i)).
    + apply list_elem_of_In, in_map, Hin.
    + rewrite <- E. apply list_elem_of_In. left. reflexivity.
  - apply lookup_insert_eq.
Qed.

(** X17. The collection built from a list of fetched invites maps the code
    of the last invite of the list to its use-count (a later pair replaces
    an earlier one), maps no code that is not in the list, and, the codes
    being distinct, maps the code of every invite to its use-count. *)
Theorem collection_of_invites_lookup (l : list Invite) :
  (forall i, collection_of_invites (l ++ [i]) !! inv_code i = Some (inv_uses i)) /\
  (forall c, ~ In c (map inv_code l) -> collection_of_invites l !! c = None) /\
  (NoDup (map inv_code l) ->
   forall i, In i l -> collection_of_invites l !! inv_code i = Some (inv_uses i)).
Proof.
  split; [| split].
  - intros i. rewrite collection_of_invites_snoc. apply lookup_insert_eq.
  - apply collection_of_invites_absent.
  - intros Hnd i. apply collection_of_invites_present, Hnd.
Qed.

Lemma invites_before_codes_distinct : NoDup (map inv_code invites_before).
Proof.
  cbn. apply NoDup_cons. split; [| apply NoDup_singleton].
  intros H. apply list_elem_of_In in H. destruct H as [H | []]. discriminate H.
Qed.

Lemma fetched_codes_distinct : NoDup (map inv_code (fetched_invites paid_platform "g1")).
Proof.
  cbn. apply NoDup_cons. split; [| apply NoDup_singleton].
  intros H. apply list_elem_of_In in H. destruct H as [H | []]. discriminate H.
Qed.

Lemma collection_of_invites_lookup_witness :
  NoDup (map inv_code invites_before) /\
  In invite_B_before invites_before /\
  ~ In "C"%string (map inv_code invites_before) /\
  collection_of_invites invites_before !! "B"%string = Some 2%Z /\
  collection_of_invites invites_before !! "C"%string = None.
Proof.
  assert (Hin : In invite_B_before invites_before) by (right; left; reflexivity).
  assert (Hout : ~ In "C"%string (map inv_code invites_before)).
  { intros H. cbn in H. destruct H as [H | [H | []]]; discriminate H. }
  split; [exact invites_before_codes_distinct |]. split; [exact Hin |].
  split; [exact Hout |].
  destruct (collection_of_invites_lookup invites_before) as (_ & Habsent & Hpresent).
  split.
  - exact (Hpresent invites_before_codes_distinct invite_B_before Hin).
  - exact (Habsent "C"%string Hout).
Defined.

Lemma cacheInvites_run P guild w :
  cacheInvites P guild w =
  (Ok tt,
   if resolves P (InvitesFetch guild)
   then cache_stored guild (collection_of_invites (fetched_invites P guild)) w
   else w,
   [InvitesFetch guild]).
Proof.
  unfold cacheInvites, try_catch, bind, await, invites_set, ret, cache_stored.
  destruct (resolves P (InvitesFetch guild)); reflexivity.
Qed.

(** X18. [cacheInvites] never throws and issues one fetch; it leaves the
    sessions and the entries of the other guilds alone, leaves the whole
    world alone when the fetch rejects, stores the fetched counts when it
    resolves, and a second refresh right after the first changes nothing
    more. *)
Theorem cacheInvites_refresh_is_idempotent P guild w :
  let '(r, w1, cs) := cacheInvites P guild w in
  r = Ok tt /\ cs = [InvitesFetch guild] /\
  onboardingSessions w1 = onboardingSessions w /\
  (forall g, g <> guild -> invites w1 !! g = invites w !! g) /\
  (resolves P (InvitesFetch guild) = false -> w1 = w) /\
  (resolves P (InvitesFetch guild) = true ->
   invites w1 !! guild = Some (collection_of_invites (fetched_invites P guild))) /\
  cacheInvites P guild w1 = (Ok tt, w1, [InvitesFetch guild]).
Proof.
  rewrite cacheInvites_run.
  split; [reflexivity |]. split; [reflexivity |].
  rewrite cacheInvites_run.
  destruct (resolves P (InvitesFetch guild)); unfold cache_stored; cbn.
  - repeat split; try discriminate.
    + intros g Hg. apply lookup_insert_ne. congruence.
    + intros _. apply lookup_insert_eq.
    + rewrite insert_insert_eq. reflexivity.
  - repeat split; congruence.
Qed.

Lemma cacheInvites_refresh_is_idempotent_witness :
  resolves offline_platform (InvitesFetch "g1") = false /\
  snd (fst (cacheInvites offline_platform "g1" cache_only_world)) = cache_only_world /\
  resolves paid_platform (InvitesFetch "g1") = true /\
  invites (snd (fst (cacheInvites paid_platform "g1" world_without_cache)))
    !! "g1"%string
  = Some (collection_of_invites (fetched_invites paid_platform "g1")).
Proof.
  split; [reflexivity |]. split.
  - pose proof (cacheInvites_refresh_is_idempotent offline_platform "g1"
                  cache_only_world) as H.
    destruct (cacheInvites offline_platform "g1" cache_only_world) as [[r w1] cs].
    destruct H as (_ & _ & _ & _ & H & _). exact (H eq_refl).
  - split; [reflexivity |].
    pose proof (cacheInvites_refresh_is_idempotent paid_platform "g1"
                  world_without_cache) as H.
    destruct (cacheInvites paid_platform "g1" world_without_cache) as [[r w1] cs].
    destruct H as (_ & _ & _ & _ & _ & H & _). exact (H eq_refl).
Defined.

Lemma find_no_increase (l : list Invite) old :
  (forall i, In i l -> old !! inv_code i = Some (inv_uses i)) ->
  find (uses_increased old) l = None.
Proof.
  induction l as [| i l IH]; intros H; [reflexivity |]. cbn [find].
  unfold uses_increased at 1. rewrite (H i (or_introl eq_refl)), Z.ltb_irrefl.
  apply IH. intros j Hj. apply H. right. exact Hj.
Qed.

(** X19. A detection that follows a refresh with the same fetched invites
    (their codes distinct) finds no invite and leaves the cache as the
    refresh made it. *)
Theorem detectUsedInvite_after_refresh_finds_nothing P guild w :
  resolves P (InvitesFetch guild) = true ->
  NoDup (map inv_code (fetched_invites P guild)) ->
  let '(_, w1, _) := cacheInvites P guild w in
  detectUsedInvite P guild w1 = (Ok None, w1, [InvitesFetch guild]).
Proof.
  intros Hres Hnd. rewrite cacheInvites_run, Hres.
  rewrite (detectUsedInvite_with_cache P guild _
             (collection_of_invites (fetched_invites P guild)) Hres);
    [| apply lookup_insert_eq].
  rewrite find_no_increase.
  - unfold cache_stored. cbn. rewrite insert_insert_eq. reflexivity.
  - intros i Hi. apply collection_of_invites_present; assumption.
Qed.

Lemma detectUsedInvite_after_refresh_finds_nothing_witness :
  resolves paid_platform (InvitesFetch "g1") = true /\
  NoDup (map inv_code (fetched_invites paid_platform "g1")) /\
  fst (fst (detectUsedInvite paid_platform "g1"
              (snd (fst (cacheInvites paid_platform "g1" world_without_cache)))))
    = Ok None.
Proof.
  split; [reflexivity |]. split; [exact fetched_codes_distinct |].
  pose proof (detectUsedInvite_after_refresh_finds_nothing paid_platform "g1"
                world_without_cache eq_refl fetched_codes_distinct) as H.
  destruct (cacheInvites paid_platform "g1" world_without_cache) as [[r w1] cs].
  cbn [fst snd]. rewrite H. reflexivity.
Defined.

Lemma find_used_invite old c (l : list Invite) :
  (forall i, In i l -> old !! inv_code i = Some (inv_uses i)) ->
  In c (map inv_code l) ->
  exists inv, In inv l /\ inv_code inv = c /\
              find (uses_increased old) (use_invite c l) = Some (used_once inv).
Proof.
  induction l as [| i l IH]; intros Hold Hc; [destruct Hc |].
  cbn [use_invite map find].
  destruct (String.eqb (inv_code i) c) eqn:Ei.
  - apply String.eqb_eq in Ei. exists i. split; [left; reflexivity |].
    split; [exact Ei |].
    unfold uses_increased at 1. cbn [inv_code used_once inv_uses].
    rewrite (Hold i (or_introl eq_refl)).
    assert (E : (inv_uses i <? inv_uses i + 1)%Z = true) by (apply Z.ltb_lt; lia).
    rewrite E. reflexivity.
  - apply String.eqb_neq in Ei.
    unfold uses_increased at 1. rewrite (Hold i (or_introl eq_refl)), Z.ltb_irrefl.
    destruct Hc as [Hc | Hc]; [contradiction |].
    destruct (IH (fun j Hj => Hold j (or_intror Hj)) Hc) as (inv & Hin & Hcode & Hfind).
    exists inv. split; [right; exact Hin |]. split; [exact Hcode | exact Hfind].
Qed.

(** X20. When the cache holds the counts of a list of invites with
    distinct codes and the next fetch returns that list with one more use
    of the invite with code [c], [detectUsedInvite] returns that invite,
    with its new count, and stores the new counts. *)
Theorem detectUsedInvite_attributes_one_use P guild w (before : list Invite) c :
  resolves P (InvitesFetch guild) = true ->
  invites w !! guild = Some (collection_of_invites before) ->
  NoDup (map inv_code before) ->
  In c (map inv_code before) ->
  fetched_invites P guild = use_invite c before ->
  exists inv,
    In inv before /\ inv_code inv = c /\
    detectUsedInvite P guild w =
      (Ok (Some (used_once inv)),
       cache_stored guild (collection_of_invites (use_invite c before)) w,
       [InvitesFetch guild]).
Proof.
  intros Hres Hcache Hnd Hc Hfetched.
  destruct (find_used_invite (collection_of_invites before) c before)
    as (inv & Hin & Hcode & Hfind); [| exact Hc |].
  { intros i Hi. apply collection_of_invites_present; assumption. }
  exists inv. split; [exact Hin |]. split; [exact Hcode |].
  rewrite (detectUsedInvite_with_cache P guild w _ Hres Hcache), Hfetched, Hfind.
  reflexivity.
Qed.

Lemma detectUsedInvite_attributes_one_use_witness :
  invites cache_only_world !! "g1"%string = Some (collection_of_invites invites_before) /\
  In "B"%string (map inv_code invites_before) /\
  fetched_invites paid_platform "g1" = use_invite "B" invites_before /\
  exists inv,
    In inv invites_before /\ inv_code inv = "B"%string /\
    detectUsedInvite paid_platform "g1" cache_only_world =
      (Ok (Some (used_once inv)),
       cache_stored "g1" (collection_of_invites (use_invite "B" invites_before))
         cache_only_world,
       [InvitesFetch "g1"]).
Proof.
  assert (Hcache : invites cache_only_world !! "g1"%string
                   = Some (collection_of_invites invites_before))
    by (vm_compute; reflexivity).
  assert (Hc : In "B"%string (map inv_code invites_before))
    by (right; left; reflexivity).
  assert (Hfetched : fetched_invites paid_platform "g1" = use_invite "B" invites_before)
    by reflexivity.
  split; [exact Hcache |]. split; [exact Hc |]. split; [exact Hfetched |].
  exact (detectUsedInvite_attributes_one_use paid_platform "g1" cache_only_world
           invites_before "B" eq_refl Hcache invites_before_codes_distinct Hc Hfetched).
Defined.

(** X21. [detectUsedInvite] issues one fetch, never touches the sessions
    nor the cache entries of other guilds, and when the fetch rejects it
    returns [null] and leaves the world as it was. *)
Theorem detectUsedInvite_frame P guild w :
  let '(r, w', cs) := detectUsedInvite P guild w in
  cs = [InvitesFetch guild] /\
  onboardingSessions w' = onboardingSessions w /\
  (forall g, g <> guild -> invites w' !! g = invites w !! g) /\
  (resolves P (InvitesFetch guild) = false -> r = Ok None /\ w' = w).
Proof.
  destruct (invites w !! guild) as [old |] eqn:Hold.
  - destruct (resolves P (InvitesFetch guild)) eqn:Hres.
    + rewrite (detectUsedInvite_with_cache P guild w old Hres Hold). cbn.
      repeat split; try discriminate. intros g Hg. apply lookup_insert_ne. congruence.
    + unfold detectUsedInvite, try_catch, bind, await, ret. rewrite Hres. run.
      repeat split; reflexivity.
  - rewrite (detectUsedInvite_without_cache P guild w Hold). repeat split; reflexivity.
Qed.

Lemma detectUsedInvite_frame_witness :
  resolves offline_platform (InvitesFetch "g1") = false /\
  "g2"%string <> "g1"%string /\
  detectUsedInvite offline_platform "g1" cache_only_world
    = (Ok None, cache_only_world, [InvitesFetch "g1"]).
Proof.
  split; [reflexivity |]. split; [discriminate |].
  pose proof (detectUsedInvite_frame offline_platform "g1" cache_only_world) as H.
  destruct (detectUsedInvite offline_platform "g1" cache_only_world) as [[r w'] cs].
  destruct H as (-> & _ & _ & H). destruct (H eq_refl) as [-> ->]. reflexivity.
Defined.

Lemma inviteCreate_run guild inv w :
  inviteCreate guild inv w =
  (Ok tt,
   cache_stored guild (<[inv_code inv := inv_uses inv]> (default ∅ (invites w !! guild))) w,
   []).
Proof. reflexivity. Qed.

Lemma inviteDelete_run guild inv w :
  inviteDelete guild inv w =
  (Ok tt,
   match invites w !! guild with
   | Some entry => cache_stored guild (delete (inv_code inv) entry) w
   | None => w
   end,
   []).
Proof.
  unfold inviteDelete, bind, get_world, invites_set, ret, cache_stored. run.
  destruct (invites w !! guild); reflexivity.
Qed.

(** X22. After an [inviteCreate] event the guild has a cache entry holding
    the new invite with its count, its other codes, the other guilds and
    the sessions unchanged; the guild had an entry or not. A detection
    that follows and fetches that invite first, with a larger count,
    returns it and refreshes the cache. *)
Theorem inviteCreate_enables_detection P guild inv w :
  let '(r, w1, cs) := inviteCreate guild inv w in
  r = Ok tt /\ cs = [] /\
  onboardingSessions w1 = onboardingSessions w /\
  (forall g, g <> guild -> invites w1 !! g = invites w !! g) /\
  (exists entry,
      invites w1 !! guild = Some entry /\
      entry !! inv_code inv = Some (inv_uses inv) /\
      forall c, c <> inv_code inv ->
                entry !! c = default ∅ (invites w !! guild) !! c) /\
  (resolves P (InvitesFetch guild) = true ->
   forall inv' rest,
     fetched_invites P guild = inv' :: rest ->
     inv_code inv' = inv_code inv ->
     (inv_uses inv < inv_uses inv')%Z ->
     detectUsedInvite P guild w1 =
       (Ok (Some inv'),
        cache_stored guild (collection_of_invites (inv' :: rest)) w1,
        [InvitesFetch guild])).
Proof.
  rewrite inviteCreate_run. unfold cache_stored at 1 2 3 4. cbn [invites onboardingSessions].
  split; [reflexivity |]. split; [reflexivity |]. split; [reflexivity |].
  split; [intros g Hg; apply lookup_insert_ne; congruence |].
  split.
  - eexists. split; [apply lookup_insert_eq |].
    split; [apply lookup_insert_eq |].
    intros c Hc. apply lookup_insert_ne. congruence.
  - intros Hres inv' rest Hfetched Hcode Huses.
    erewrite detectUsedInvite_with_cache; [| exact Hres | apply lookup_insert_eq].
    rewrite Hfetched. cbn [find]. unfold uses_increased at 1.
    rewrite Hcode, lookup_insert_eq.
    apply Z.ltb_lt in Huses. rewrite Huses. reflexivity.
Qed.

Lemma inviteCreate_enables_detection_witness :
  resolves platform_after_C (InvitesFetch "g1") = true /\
  fetched_invites platform_after_C "g1" = used_once invite_C :: [invite_A] /\
  (inv_uses invite_C < inv_uses (used_once invite_C))%Z /\
  invites world_without_cache !! "g1"%string = None /\
  fst (fst (detectUsedInvite platform_after_C "g1"
              (snd (fst (inviteCreate "g1" invite_C world_without_cache)))))
    = Ok (Some (used_once invite_C)).
Proof.
  assert (Huses : (inv_uses invite_C < inv_uses (used_once invite_C))%Z) by (cbn; lia).
  split; [reflexivity |]. split; [reflexivity |]. split; [exact Huses |].
  split; [reflexivity |].
  pose proof (inviteCreate_enables_detection platform_after_C "g1" invite_C
                world_without_cache) as H.
  destruct (inviteCreate "g1" invite_C world_without_cache) as [[r w1] cs].
  destruct H as (_ & _ & _ & _ & _ & H). cbn [fst snd].
  rewrite (H eq_refl (used_once invite_C) [invite_A] eq_refl eq_refl Huses).
  reflexivity.
Defined.

(** X23. [inviteDelete] does nothing for a guild without cache entry and
    otherwise leaves no count for the code. After an [inviteCreate] of a
    code the guild's entry did not hold it restores the world; for a
    guild without entry the pair leaves an empty entry, not no entry. *)
Theorem inviteDelete_after_inviteCreate guild inv w :
  (invites w !! guild = None -> inviteDelete guild inv w = (Ok tt, w, [])) /\
  (forall entry,
      invites w !! guild = Some entry -> entry !! inv_code inv = None ->
      let '(_, w1, _) := inviteCreate guild inv w in
      inviteDelete guild inv w1 = (Ok tt, w, [])) /\
  (invites w !! guild = None ->
   let '(_, w1, _) := inviteCreate guild inv w in
   inviteDelete guild inv w1 = (Ok tt, cache_stored guild ∅ w, [])) /\
  (let '(_, w1, _) := inviteDelete guild inv w in
   forall entry, invites w1 !! guild = Some entry -> entry !! inv_code inv = None).
Proof.
  repeat split.
  - intros Hnone. rewrite inviteDelete_run, Hnone. reflexivity.
  - intros entry Hentry Hfresh. rewrite inviteCreate_run, inviteDelete_run.
    unfold cache_stored. cbn [invites onboardingSessions].
    rewrite lookup_insert_eq, Hentry. cbn [default].
    rewrite delete_insert_eq, insert_insert_eq.
    rewrite (delete_id entry _ Hfresh).
    rewrite (insert_id (invites w) guild entry Hentry). destruct w; reflexivity.
  - intros Hnone. rewrite inviteCreate_run, inviteDelete_run.
    unfold cache_stored. cbn [invites onboardingSessions].
    rewrite lookup_insert_eq, Hnone. cbn [default].
    rewrite delete_insert_eq, insert_insert_eq, delete_empty. reflexivity.
  - rewrite inviteDelete_run. destruct (invites w !! guild) as [entry |] eqn:He.
    + unfold cache_stored. cbn [invites]. intros entry'.
      rewrite lookup_insert_eq. intros [= <-]. apply lookup_delete_eq.
    + intros entry' He'. congruence.
Qed.

Lemma inviteDelete_after_inviteCreate_witness :
  invites cache_only_world !! "g1"%string = Some (collection_of_invites invites_before) /\
  collection_of_invites invites_before !! inv_code invite_C = None /\
  inviteDelete "g1" invite_C (snd (fst (inviteCreate "g1" invite_C cache_only_world)))
    = (Ok tt, cache_only_world, []) /\
  invites world_without_cache !! "g1"%string = None /\
  inviteDelete "g1" invite_C world_without_cache = (Ok tt, world_without_cache, []) /\
  inviteDelete "g1" invite_C (snd (fst (inviteCreate "g1" invite_C world_without_cache)))
    = (Ok tt, cache_stored "g1" ∅ world_without_cache, []).
Proof.
  assert (H1 : invites cache_only_world !! "g1"%string
               = Some (collection_of_invites invites_before))
    by (vm_compute; reflexivity).
  assert (H2 : collection_of_invites invites_before !! inv_code invite_C = None)
    by (vm_compute; reflexivity).
  assert (H3 : invites world_without_cache !! "g1"%string = None) by reflexivity.
  split; [exact H1 |]. split; [exact H2 |]. split.
  - pose proof (proj1 (proj2 (inviteDelete_after_inviteCreate "g1" invite_C
                                cache_only_world)) _ H1 H2) as H.
    destruct (inviteCreate "g1" invite_C cache_only_world) as [[r w1] cs]. exact H.
  - split; [exact H3 |]. split.
    + exact (proj1 (inviteDelete_after_inviteCreate "g1" invite_C world_without_cache) H3).
    + pose proof (proj1 (proj2 (proj2 (inviteDelete_after_inviteCreate "g1" invite_C
                                         world_without_cache))) H3) as H.
      destruct (inviteCreate "g1" invite_C world_without_cache) as [[r w1] cs]. exact H.
Defined.

Lemma ready_run P guilds : forall w,
  exists w', ready P guilds w = (Ok tt, w', map InvitesFetch guilds) /\
    onboardingSessions w' = onboardingSessions w /\
    (forall g, In g guilds -> resolves P (InvitesFetch g) = true ->
               invites w' !! g = Some (collection_of_invites (fetched_invites P g))) /\
    (forall g, resolves P (InvitesFetch g) = false ->
               invites w' !! g = invites w !! g) /\
    (forall g, ~ In g guilds -> invites w' !! g = invites w !! g).
Proof.
  induction guilds as [| guild rest IH]; intros w; cbn [ready map].
  - exists w. repeat split; try reflexivity. intros g [].
  - unfold bind. rewrite cacheInvites_run.
    set (w1 := if resolves P (InvitesFetch guild)
               then cache_stored guild
                      (collection_of_invites (fetched_invites P guild)) w
               else w).
    assert (Hother : forall g, g <> guild -> invites w1 !! g = invites w !! g).
    { intros g Hg. subst w1. destruct (resolves P (InvitesFetch guild)); [| reflexivity].
      unfold cache_stored. cbn [invites]. apply lookup_insert_ne. congruence. }
    destruct (IH w1) as (w' & -> & Hs & Hyes & Hno & Hout).
    exists w'. split; [reflexivity |]. split.
    { rewrite Hs. subst w1. destruct (resolves P (InvitesFetch guild)); reflexivity. }
    split; [| split].
    + intros g Hg Hres. destruct (in_dec String.string_dec g rest) as [Hin | Hnin].
      * apply Hyes; assumption.
      * destruct Hg as [<- | Hg]; [| contradiction].
        rewrite (Hout guild Hnin). subst w1. rewrite Hres.
        unfold cache_stored. cbn [invites]. apply lookup_insert_eq.
    + intros g Hres. rewrite (Hno g Hres).
      destruct (String.string_dec g guild) as [-> | Hne]; [| apply Hother, Hne].
      subst w1. rewrite Hres. reflexivity.
    + intros g Hg. rewrite Hout by (intros Hin; apply Hg; right; exact Hin).
      apply Hother. intros E. apply Hg. left. symmetry. exact E.
Qed.

(** X24. The [ready] loop fetches every guild once, in order, and never
    stops early: afterwards every listed guild whose fetch resolved has
    the fetched counts, and every guild whose fetch rejected, or that is
    not listed, has the entry it had. *)
Theorem ready_caches_every_reachable_guild P guilds w :
  let '(r, w', cs) := ready P guilds w in
  r = Ok tt /\ cs = map InvitesFetch guilds /\
  onboardingSessions w' = onboardingSessions w /\
  (forall g, In g guilds -> resolves P (InvitesFetch g) = true ->
             invites w' !! g = Some (collection_of_invites (fetched_invites P g))) /\
  (forall g, resolves P (InvitesFetch g) = false ->
             invites w' !! g = invites w !! g) /\
  (forall g, ~ In g guilds -> invites w' !! g = invites w !! g).
Proof.
  destruct (ready_run P guilds w) as (w' & -> & H). split; [reflexivity |].
  split; [reflexivity | exact H].
Qed.

Lemma ready_caches_every_reachable_guild_witness :
  In "g1"%string ["g1"; "g2"]%string /\
  resolves paid_platform (InvitesFetch "g1") = true /\
  invites (snd (fst (ready paid_platform ["g1"; "g2"]%string world_without_cache)))
    !! "g1"%string
  = Some (collection_of_invites (fetched_invites paid_platform "g1")) /\
  resolves offline_platform (InvitesFetch "g1") = false /\
  invites (snd (fst (ready offline_platform ["g1"; "g2"]%string cache_only_world)))
    !! "g1"%string
  = invites cache_only_world !! "g1"%string /\
  ~ In "g3"%string ["g1"; "g2"]%string /\
  invites (snd (fst (ready paid_platform ["g1"; "g2"]%string world_without_cache)))
    !! "g3"%string
  = invites world_without_cache !! "g3"%string.
Proof.
  assert (Hin : In "g1"%string ["g1"; "g2"]%string) by (left; reflexivity).
  assert (Hout : ~ In "g3"%string ["g1"; "g2"]%string).
  { intros H. destruct H as [H | [H | []]]; discriminate H. }
  pose proof (ready_caches_every_reachable_guild paid_platform ["g1"; "g2"]%string
                world_without_cache) as H1.
  pose proof (ready_caches_every_reachable_guild offline_platform ["g1"; "g2"]%string
                cache_only_world) as H2.
  destruct (ready paid_platform ["g1"; "g2"]%string world_without_cache) as [[r1 w1] cs1].
  destruct (ready offline_platform ["g1"; "g2"]%string cache_only_world) as [[r2 w2] cs2].
  destruct H1 as (_ & _ & _ & Hyes & _ & Hnot).
  destruct H2 as (_ & _ & _ & _ & Hno & _).
  cbn [fst snd].
  split; [exact Hin |]. split; [reflexivity |].
  split; [exact (Hyes "g1"%string Hin eq_refl) |]. split; [reflexivity |].
  split; [exact (Hno "g1"%string eq_refl) |]. split; [exact Hout |].
  exact (Hnot "g3"%string Hout).
Defined.

(** ** The member-join and button handlers *)

Lemma handleOnboarding_run Gw member channelName channelId w :
  handleOnboarding Gw member channelName channelId w =
  if gateway_resolves Gw (CreateDM (gm_id member)) then
    (Ok tt,
     if gateway_resolves Gw (WelcomeSend (gm_id member))
     then session_stored (gm_id member)
            (new_session Gw member channelName channelId) w
     else session_removed (new_session Gw member channelName channelId)
            (session_stored (gm_id member)
               (new_session Gw member channelName channelId) w),
     [CreateDM (gm_id member); WelcomeSend (gm_id member)])
  else (Ok tt, w, [CreateDM (gm_id member)]).
Proof.
  unfold handleOnboarding, try_catchG, bindG, awaitG, retG, throwG, lift,
    sessions_set, sessions_delete.
  destruct (gateway_resolves Gw (CreateDM (gm_id member))); run; [| reflexivity].
  cbn [negb]. run.
  destruct (gateway_resolves Gw (WelcomeSend (gm_id member))); reflexivity.
Qed.



Lemma detectUsedInvite_calls P guild w :
  snd (detectUsedInvite P guild w) = [InvitesFetch guild].
Proof.
  unfold detectUsedInvite, try_catch, bind, await, get_world, invites_set, ret.
  destruct (resolves P (InvitesFetch guild)); run; [| reflexivity].
  destruct (invites w !! guild); reflexivity.
Qed.

Lemma guildMemberAdd_run Gw member w :
  guildMemberAdd Gw member w =
  let '(r0, w0, cs0) := detectUsedInvite (platform Gw) (gm_guild member) w in
  match r0 with
  | Ok usedInvite =>
      let '(r, w', cs) :=
        handleOnboarding Gw member (fst (channel_of_invite usedInvite))
          (snd (channel_of_invite usedInvite)) w0 in
      (r, w', map Issued cs0 ++ cs)
  | Throw e => (Throw e, w0, map Issued cs0)
  end.
Proof.
  unfold guildMemberAdd, bindG, lift, try_catchG.
  destruct (detectUsedInvite (platform Gw) (gm_guild member) w) as [[[used | e] w0] cs0];
    [| reflexivity].
  destruct (channel_of_invite used) as [cn cid]. cbn [fst snd].
  rewrite handleOnboarding_run.
  destruct (gateway_resolves Gw (CreateDM (gm_id member))); reflexivity.
Qed.



Lemma interactionCreate_start_run Gw interaction w session :
  isButton interaction = true ->
  customId interaction = "start_onboarding"%string ->
  onboardingSessions w !! interaction_user interaction = Some session ->
  interactionCreate Gw interaction w =
  (if gateway_resolves Gw (InteractionUpdate (interaction_user interaction))
   then if gateway_resolves Gw
             (InteractionFollowUp (interaction_user interaction) (QuestionText NAME))
        then Ok tt else Throw Rejected
   else Throw Rejected,
   session_stored (interaction_user interaction) (start_session session) w,
   InteractionUpdate (interaction_user interaction) ::
   (if gateway_resolves Gw (InteractionUpdate (interaction_user interaction))
    then [InteractionFollowUp (interaction_user interaction) (QuestionText NAME)]
    else [])).
Proof.
  intros Hb Hc Hs. unfold interactionCreate. rewrite Hb, Hc, String.eqb_refl.
  cbn [negb]. run. rewrite Hs.
  unfold bindG, lift, sessions_set, awaitG. run. cbn [nth_error QUESTION_ORDER].
  destruct (gateway_resolves Gw (InteractionUpdate _)); reflexivity.
Qed.

(** X27. The [interactionCreate] handler ignores what is not the Start
    button; without a session of the user it only replies; with one it
    sets the started flag in the registry, the other fields unchanged,
    before any call (so also when a call then rejects), removes the
    button and, that done, sends the first question. *)
Theorem interactionCreate_starts_the_session Gw interaction w :
  (isButton interaction = false \/
   customId interaction <> "start_onboarding"%string ->
   interactionCreate Gw interaction w = (Ok tt, w, [])) /\
  (isButton interaction = true ->
   customId interaction = "start_onboarding"%string ->
   match onboardingSessions w !! interaction_user interaction with
   | None =>
       interactionCreate Gw interaction w =
         (if gateway_resolves Gw (InteractionReply (interaction_user interaction))
          then Ok tt else Throw Rejected,
          w, [InteractionReply (interaction_user interaction)])
   | Some session =>
       let '(r, w', cs) := interactionCreate Gw interaction w in
       w' = session_stored (interaction_user interaction) (start_session session) w /\
       head cs = Some (InteractionUpdate (interaction_user interaction)) /\
       (gateway_resolves Gw (InteractionUpdate (interaction_user interaction)) = true ->
        cs = [InteractionUpdate (interaction_user interaction);
              InteractionFollowUp (interaction_user interaction) (QuestionText NAME)])
   end).
Proof.
  split.
  - intros H. unfold interactionCreate.
    destruct (isButton interaction); [| reflexivity]. cbn [negb].
    destruct H as [H | H]; [discriminate |].
    apply String.eqb_neq in H. rewrite H. reflexivity.
  - intros Hb Hc.
    destruct (onboardingSessions w !! interaction_user interaction) as [s |] eqn:Hs.
    + rewrite (interactionCreate_start_run Gw interaction w s Hb Hc Hs).
      split; [reflexivity |]. split; [reflexivity |]. intros ->. reflexivity.
    + unfold interactionCreate. rewrite Hb, Hc, String.eqb_refl. cbn [negb]. run.
      rewrite Hs. reflexivity.
Qed.

Lemma interactionCreate_starts_the_session_witness :
  isButton (start_click "u1") = true /\
  customId (start_click "u1") = "start_onboarding"%string /\
  onboardingSessions (demo_world unstarted_session) !! "u1"%string
    = Some unstarted_session /\
  snd (fst (interactionCreate demo_gateway (start_click "u1")
              (demo_world unstarted_session)))
    = session_stored "u1" (start_session unstarted_session)
        (demo_world unstarted_session) /\
  started (start_session unstarted_session) = true /\
  interactionCreate demo_gateway (start_click "u1") world_without_cache
    = (Ok tt, world_without_cache, [InteractionReply "u1"]).
Proof.
  assert (Hs : onboardingSessions (demo_world unstarted_session)
                 !! interaction_user (start_click "u1") = Some unstarted_session)
    by (vm_compute; reflexivity).
  split; [reflexivity |]. split; [reflexivity |]. split; [exact Hs |].
  pose proof (proj2 (interactionCreate_starts_the_session demo_gateway (start_click "u1")
                       (demo_world unstarted_session)) eq_refl eq_refl) as H1.
  pose proof (proj2 (interactionCreate_starts_the_session demo_gateway (start_click "u1")
                       world_without_cache) eq_refl eq_refl) as H2.
  rewrite Hs in H1.
  destruct (interactionCreate demo_gateway (start_click "u1")
              (demo_world unstarted_session)) as [[r w'] cs].
  destruct H1 as (-> & _).
  split; [reflexivity |]. split; [reflexivity |]. exact H2.
Defined.

(** ** One onboarding from the join to the row *)

Lemma issued_calls_app a b : issued_calls (a ++ b) = issued_calls a ++ issued_calls b.
Proof.
  induction a as [| c a IH]; [reflexivity |]. destruct c; cbn; rewrite IH; reflexivity.
Qed.

Lemma issued_calls_lift cs : issued_calls (map Issued cs) = cs.
Proof. induction cs as [| c cs IH]; [reflexivity |]. cbn. rewrite IH. reflexivity. Qed.

Lemma appended_rows_app a b : appended_rows (a ++ b) = appended_rows a ++ appended_rows b.
Proof.
  induction a as [| c a IH]; [reflexivity |]. destruct c; cbn; rewrite IH; reflexivity.
Qed.

(** An accepted answer that is not the last one, every call resolving. *)
Lemma messageCreate_accepted_next P user text w session k k' :
  (forall c, resolves P c = true) ->
  onboardingSessions w !! user = Some session ->
  started session = true ->
  nth_error QUESTION_ORDER (currentStep session) = Some k ->
  validator (QUESTIONS k) (sanitizeInput text) = true ->
  nth_error QUESTION_ORDER (S (currentStep session)) = Some k' ->
  messageCreate P (direct_message user text) w =
    (Ok tt,
     session_stored user (with_answer session (key (QUESTIONS k)) (sanitizeInput text)) w,
     [DmSend user (question (QUESTIONS k'))]).
Proof.
  intros Hres Hs Hstarted Hk Hv Hk'.
  rewrite (messageCreate_started P (direct_message user text) w session
             eq_refl eq_refl Hs Hstarted).
  destruct (handleResponse_cases P (direct_message user text) session w)
    as [[E _] | [(k1 & E & Hv1 & _) | [(k1 & k1' & E & Hv1 & Ek' & ->) | (k1 & E & Hv1 & El & _)]]];
    cbn [content author_id direct_message] in *; try congruence.
  - assert (k1 = k) as -> by congruence. assert (k1' = k') as -> by congruence.
    unfold await. rewrite Hres. reflexivity.
  - apply nth_error_None in El || idtac.
    assert (Hnone : nth_error QUESTION_ORDER (S (currentStep session)) = None)
      by (apply nth_error_None; lia).
    congruence.
Qed.

(** The last accepted answer runs the finalization on the completed
    session. *)
Lemma messageCreate_accepted_last P user text w session k :
  onboardingSessions w !! user = Some session ->
  started session = true ->
  nth_error QUESTION_ORDER (currentStep session) = Some k ->
  validator (QUESTIONS k) (sanitizeInput text) = true ->
  S (currentStep session) = length QUESTION_ORDER ->
  messageCreate P (direct_message user text) w =
    finalizeOnboarding P (direct_message user text)
      (with_answer session (key (QUESTIONS k)) (sanitizeInput text))
      (session_stored user
         (with_answer session (key (QUESTIONS k)) (sanitizeInput text)) w).
Proof.
  intros Hs Hstarted Hk Hv Hlast.
  rewrite (messageCreate_started P (direct_message user text) w session
             eq_refl eq_refl Hs Hstarted).
  destruct (handleResponse_cases P (direct_message user text) session w)
    as [[E _] | [(k1 & E & Hv1 & _) | [(k1 & k1' & E & Hv1 & Ek' & _) | (k1 & E & Hv1 & El & ->)]]];
    cbn [content author_id direct_message] in *; try congruence.
  - assert (Hnone : nth_error QUESTION_ORDER (S (currentStep session)) = None)
      by (apply nth_error_None; lia).
    congruence.
  - assert (k1 = k) as -> by congruence.
    pose proof (finalizeOnboarding_outcome P (direct_message user text)
                  (with_answer session (key (QUESTIONS k)) (sanitizeInput text))
                  (session_stored user
                     (with_answer session (key (QUESTIONS k)) (sanitizeInput text)) w)) as H.
    cbn [author_id direct_message].
    destruct (finalizeOnboarding _ _ _ _) as [[r w2] cs]. destruct H as (-> & _).
    reflexivity.
Qed.

(** The finalization of a verified session when every call resolves and
    the guild and the member are found. *)
Lemma finalizeOnboarding_completes P message session w v guild member :
  (forall c, resolves P c = true) ->
  verifyPaidLearner P (data session !! "email"%string) = Ok v ->
  isVerified v = true ->
  client_guilds P !! guildId session = Some guild ->
  fetched_member P (guildId session) (userId session) = Some member ->
  let '(r, w', cs) := finalizeOnboarding P message session w in
  r = Ok tt /\ w' = session_removed session w /\
  appended_rows cs = [sheetData_of session].
Proof.
  intros Hres Hv Hverified Hguild Hmember.
  finalize_paths; simplify_eq; try congruence;
    try match goal with
        | H : resolves P ?c = false |- _ => rewrite Hres in H; discriminate H
        end;
    repeat split.
Qed.

Lemma bindG_ok {A B} (m : G A) (k : A -> G B) w a w1 cs1 :
  m w = (Ok a, w1, cs1) ->
  bindG m k w = let '(r, w2, cs2) := k a w1 in (r, w2, cs1 ++ cs2).
Proof. intros E. unfold bindG. rewrite E. reflexivity. Qed.

Lemma messageCreateG_run Gw message w r w1 cs :
  messageCreate (platform Gw) message w = (r, w1, cs) ->
  messageCreateG Gw message w = (r, w1, map Issued cs).
Proof. intros E. unfold messageCreateG, lift. rewrite E. reflexivity. Qed.

(** X28. One onboarding from end to end. A member joins, clicks Start and
    sends a name, an email and a phone number whose sanitized texts pass
    the validators; the allow-list verifies the email, the guild and the
    member are found and every call resolves. Then the five handler runs
    return, append exactly one row (the sanitized answers, the member's
    tag and the channel name of the detected invite) and leave the member
    without session. *)
Theorem onboarding_flow_appends_the_row Gw member name email phone w v guild m :
  (forall c, resolves (platform Gw) c = true) ->
  (forall c, gateway_resolves Gw c = true) ->
  isValidName (sanitizeInput name) = true ->
  isValidEmail (sanitizeInput email) = true ->
  isValidPhone (sanitizeInput phone) = true ->
  verifyPaidLearner (platform Gw) (Some (sanitizeInput email)) = Ok v ->
  isVerified v = true ->
  client_guilds (platform Gw) !! gm_guild member = Some guild ->
  fetched_member (platform Gw) (gm_guild member) (gm_id member) = Some m ->
  let '(r0, _, _) := detectUsedInvite (platform Gw) (gm_guild member) w in
  let '(r, w', cs) := onboarding_flow Gw member name email phone w in
  r = Ok tt /\
  onboardingSessions w' !! gm_id member = None /\
  exists usedInvite,
    r0 = Ok usedInvite /\
    appended_rows (issued_calls cs) =
      [row_of member (fst (channel_of_invite usedInvite)) name email phone].
Proof.
  intros Hres Hgw Hname Hemail Hphone Hv Hverified Hguild Hmember.
  destruct (detectUsedInvite_returns (platform Gw) (gm_guild member) w)
    as (used & w0 & cs0 & E0).
  pose proof (detectUsedInvite_calls (platform Gw) (gm_guild member) w) as Hcs0.
  rewrite E0 in Hcs0 |- *. cbn [snd] in Hcs0. subst cs0.
  set (channelName := fst (channel_of_invite used)).
  set (channelId := snd (channel_of_invite used)).
  set (s0 := new_session Gw member channelName channelId).
  set (w1 := session_stored (gm_id member) s0 w0).
  set (w2 := session_stored (gm_id member) (start_session s0) w1).
  set (s1 := with_answer (start_session s0) (key (QUESTIONS NAME)) (sanitizeInput name)).
  set (w3 := session_stored (gm_id member) s1 w2).
  set (s2 := with_answer s1 (key (QUESTIONS EMAIL)) (sanitizeInput email)).
  set (w4 := session_stored (gm_id member) s2 w3).
  set (s3 := with_answer s2 (key (QUESTIONS PHONE)) (sanitizeInput phone)).
  set (w5 := session_stored (gm_id member) s3 w4).
  assert (E1 : guildMemberAdd Gw member w =
               (Ok tt, w1, map Issued [InvitesFetch (gm_guild member)] ++
                           [CreateDM (gm_id member); WelcomeSend (gm_id member)])).
  { rewrite guildMemberAdd_run, E0, handleOnboarding_run, !Hgw. reflexivity. }
  assert (E2 : interactionCreate Gw (start_click (gm_id member)) w1 =
               (Ok tt, w2,
                [InteractionUpdate (gm_id member);
                 InteractionFollowUp (gm_id member) (QuestionText NAME)])).
  { rewrite (interactionCreate_start_run Gw (start_click (gm_id member)) w1 s0
               eq_refl eq_refl); [| apply lookup_insert_eq].
    cbn [interaction_user start_click]. rewrite !Hgw. reflexivity. }
  assert (E3 : messageCreate (platform Gw) (direct_message (gm_id member) name) w2 =
               (Ok tt, w3, [DmSend (gm_id member) (question (QUESTIONS EMAIL))])).
  { apply (messageCreate_accepted_next _ _ _ _ (start_session s0) NAME EMAIL);
      try reflexivity; [exact Hres | apply lookup_insert_eq | exact Hname]. }
  assert (E4 : messageCreate (platform Gw) (direct_message (gm_id member) email) w3 =
               (Ok tt, w4, [DmSend (gm_id member) (question (QUESTIONS PHONE))])).
  { apply (messageCreate_accepted_next _ _ _ _ s1 EMAIL PHONE);
      try reflexivity; [exact Hres | apply lookup_insert_eq | exact Hemail]. }
  assert (E5 : messageCreate (platform Gw) (direct_message (gm_id member) phone) w4 =
               finalizeOnboarding (platform Gw) (direct_message (gm_id member) phone)
                 s3 w5).
  { apply (messageCreate_accepted_last _ _ _ _ s2 PHONE);
      try reflexivity; [apply lookup_insert_eq | exact Hphone]. }
  assert (Hdata : sheetData_of s3 = row_of member channelName name email phone).
  { unfold sheetData_of, row_of. subst s3 s2 s1 s0. cbn. f_equal; by simplify_map_eq. }
  assert (Hmail : data s3 !! "email"%string = Some (sanitizeInput email)).
  { subst s3 s2 s1 s0. cbn. by simplify_map_eq. }
  pose proof (finalizeOnboarding_completes (platform Gw)
                (direct_message (gm_id member) phone) s3 w5 v guild m Hres) as Hfin.
  rewrite Hmail in Hfin. specialize (Hfin Hv Hverified Hguild Hmember).
  destruct (finalizeOnboarding (platform Gw) (direct_message (gm_id member) phone) s3 w5)
    as [[r5 w6] cs5] eqn:E6.
  destruct Hfin as (-> & -> & Hrows).
  unfold onboarding_flow.
  rewrite (bindG_ok _ _ _ _ _ _ E1).
  rewrite (bindG_ok _ _ _ _ _ _ E2).
  rewrite (bindG_ok _ _ _ _ _ _ (messageCreateG_run _ _ _ _ _ _ E3)).
  rewrite (bindG_ok _ _ _ _ _ _ (messageCreateG_run _ _ _ _ _ _ E4)).
  rewrite (messageCreateG_run _ _ _ _ _ _ E5).
  split; [reflexivity |]. split.
  - cbn [session_removed onboardingSessions]. subst s3 s2 s1 s0. cbn [userId with_answer start_session new_session].
    apply lookup_delete_eq.
  - exists used. split; [reflexivity |].
    rewrite !issued_calls_app, !issued_calls_lift. cbn [issued_calls app appended_rows].
    rewrite Hrows, Hdata. reflexivity.
Qed.

Lemma onboarding_flow_appends_the_row_witness :
  isValidName (sanitizeInput (js "Jane Doe")) = true /\
  isValidEmail (sanitizeInput (js " Jane@Scaler.com")) = true /\
  isValidPhone (sanitizeInput (js "+91 99988 87777")) = true /\
  (exists v, verifyPaidLearner (platform demo_gateway)
               (Some (sanitizeInput (js " Jane@Scaler.com"))) = Ok v /\
             isVerified v = true) /\
  appended_rows
    (issued_calls
       (snd (onboarding_flow demo_gateway jane_member (js "Jane Doe")
               (js " Jane@Scaler.com") (js "+91 99988 87777") cache_only_world)))
  = [row_of jane_member "dsml" (js "Jane Doe") (js " Jane@Scaler.com")
       (js "+91 99988 87777")] /\
  onboardingSessions
    (snd (fst (onboarding_flow demo_gateway jane_member (js "Jane Doe")
                 (js " Jane@Scaler.com") (js "+91 99988 87777") cache_only_world)))
    !! gm_id jane_member = None.
Proof.
  assert (Hn : isValidName (sanitizeInput (js "Jane Doe")) = true)
    by (vm_compute; reflexivity).
  assert (He : isValidEmail (sanitizeInput (js " Jane@Scaler.com")) = true)
    by (vm_compute; reflexivity).
  assert (Hp : isValidPhone (sanitizeInput (js "+91 99988 87777")) = true)
    by (vm_compute; reflexivity).
  assert (Hv : exists v, verifyPaidLearner (platform demo_gateway)
                           (Some (sanitizeInput (js " Jane@Scaler.com"))) = Ok v /\
                         isVerified v = true)
    by (eexists; split; [vm_compute; reflexivity | reflexivity]).
  split; [exact Hn |]. split; [exact He |]. split; [exact Hp |]. split; [exact Hv |].
  destruct Hv as (v & Hv & Hverified).
  assert (Hguild : client_guilds (platform demo_gateway) !! gm_guild jane_member
                   = Some demo_guild) by (vm_compute; reflexivity).
  pose proof (onboarding_flow_appends_the_row demo_gateway jane_member (js "Jane Doe")
                (js " Jane@Scaler.com") (js "+91 99988 87777") cache_only_world
                v demo_guild jane_as_member
                (fun _ => eq_refl) (fun _ => eq_refl) Hn He Hp Hv Hverified Hguild
                eq_refl) as H.
  assert (Hd : detectUsedInvite (platform demo_gateway) (gm_guild jane_member)
                 cache_only_world
               = (Ok (Some invite_B),
                  cache_stored "g1" (collection_of_invites [invite_A; invite_B])
                    cache_only_world,
                  [InvitesFetch "g1"]))
    by (vm_compute; reflexivity).
  rewrite Hd in H.
  destruct (onboarding_flow demo_gateway jane_member (js "Jane Doe")
              (js " Jane@Scaler.com") (js "+91 99988 87777") cache_only_world)
    as [[r w'] cs].
  destruct H as (_ & Hgone & used & Hused & Hrows).
  injection Hused as <-. cbn [fst snd]. split; [exact Hrows | exact Hgone].
Defined.

(** ** Start-up *)

Lemma missing_env_var_none env :
  missing_env_var env = None <->
  forall k, In k requiredEnvVars -> is_Some (env_truthy env k).
Proof.
  unfold missing_env_var. split.
  - intros H k Hk. pose proof (find_none _ _ H k Hk) as Hf. cbn beta in Hf.
    destruct (env_truthy env k); [eauto | discriminate].
  - intros H. destruct (find _ requiredEnvVars) as [k |] eqn:E; [| reflexivity].
    apply find_some in E as [Hin Hk]. destruct (H k Hin) as [v Hv].
    rewrite Hv in Hk. discriminate.
Qed.


